(** * Verification of [filter_veg_fe_hd.py]

    A shallow embedding of the keyword filter for the FEHD restaurant
    licence table, and the properties of its specification.

    Conventions of the embedding:
    - a Python [str] is the list of its code points ([list N]); literals
      are written as Rocq strings and read through [utf8];
    - column labels are only ever compared for equality, they stay Rocq
      [string]s;
    - a table cell is a [val]: a string, the float NaN that pandas stores
      for a missing cell, or [None] (what [Series.get] answers for an
      unknown label);
    - a [float] is represented by the decimal it was read from: rounding
      to binary64 is not part of the model. *)

From stdpp Require Import base option list gmap strings.
From Stdlib Require Import NArith ZArith Lia.

Open Scope N_scope.

(** ** Python strings *)

Abbreviation pystr := (list N).

Module Utf8.

Definition bytes_of (s : string) : list N :=
  (fun a => N.of_nat (Ascii.nat_of_ascii a)) <$> String.list_ascii_of_string s.

(** [need] continuation bytes are still expected for the code point
    whose leading bits are in [acc]. *)
Fixpoint decode (need : nat) (acc : N) (bs : list N) : pystr :=
  match bs with
  | [] => []
  | b :: bs' =>
      match need with
      | O =>
          if b <? 0x80 then b :: decode 0 0 bs'
          else if b <? 0xE0 then decode 1 (b mod 0x20) bs'
          else if b <? 0xF0 then decode 2 (b mod 0x10) bs'
          else decode 3 (b mod 0x08) bs'
      | S O => (acc * 64 + b mod 64) :: decode 0 0 bs'
      | S n => decode n (acc * 64 + b mod 64) bs'
      end
  end.

End Utf8.

(** The Python string denoted by a literal of this file. *)
Definition utf8 (s : string) : pystr := Utf8.decode 0 0 (Utf8.bytes_of s).

Definition in_range (lo hi c : N) : bool := (lo <=? c) && (c <=? hi).

(** [str.isspace] on one character: the white space [str.strip()] removes. *)
Definition isspace (c : N) : bool :=
  in_range 0x09 0x0D c || in_range 0x1C 0x20 c
  || (c =? 0x85) || (c =? 0xA0) || (c =? 0x1680)
  || in_range 0x2000 0x200A c || (c =? 0x2028) || (c =? 0x2029)
  || (c =? 0x202F) || (c =? 0x205F) || (c =? 0x3000).

(** Leading, then trailing characters of a class are dropped. *)
Fixpoint lstrip_by (sp : N -> bool) (s : pystr) : pystr :=
  match s with
  | c :: s' => if sp c then lstrip_by sp s' else s
  | [] => []
  end.

Definition rstrip_by (sp : N -> bool) (s : pystr) : pystr :=
  reverse (lstrip_by sp (reverse s)).

Definition strip_by (sp : N -> bool) (s : pystr) : pystr :=
  rstrip_by sp (lstrip_by sp s).

(** [s.strip()] *)
Definition strip (s : pystr) : pystr := strip_by isspace s.

(** [s.replace(c, "")] for a one-character [c]. *)
Definition remove_char (c : N) (s : pystr) : pystr :=
  filter (fun x => x ≠ c) s.

Fixpoint startswith (p s : pystr) : bool :=
  match p, s with
  | [], _ => true
  | _ :: _, [] => false
  | a :: p', b :: s' => (a =? b) && startswith p' s'
  end.

(** [kw in val] on strings: [kw] occurs in [val] as a contiguous run. *)
Fixpoint contains (kw val : pystr) : bool :=
  startswith kw val ||
  match val with
  | [] => false
  | _ :: val' => contains kw val'
  end.

(** ** Python values, exceptions *)

(** What a cell of the frame, or a look-up in a row, can be. *)
Inductive val :=
| Str (s : pystr)
| NaN
| PyNone.

#[global] Instance val_eq_dec : EqDecision val.
Proof. solve_decision. Defined.

Inductive exn := ValueError | TypeError | FileNotFoundError | ParserError.

Inductive result (A : Type) :=
| Ok (a : A)
| Raise (e : exn).
Arguments Ok {A} a.
Arguments Raise {A} e.

#[global] Instance result_ret : MRet result := @Ok.

#[global] Instance result_bind : MBind result :=
  fun A B k r =>
    match r with
    | Ok a => k a
    | Raise e => Raise e
    end.

(** [try: body  except Exception: handler] *)
Definition try_except {A} (body : result A) (handler : result A) : result A :=
  match body with
  | Ok a => Ok a
  | Raise _ => handler
  end.

(** [isinstance(v, str)] *)
Definition is_str (v : val) : bool :=
  match v with
  | Str _ => true
  | _ => false
  end.

(** [pd.isna(v)] *)
Definition isna (v : val) : bool := negb (is_str v).

(** [str(v)] *)
Definition py_str (v : val) : pystr :=
  match v with
  | Str s => s
  | NaN => utf8 "nan"
  | PyNone => utf8 "None"
  end.

(** A [float], an IEEE 754 binary64: [(-1)^neg * mantissa * 2^exp2] with
    an odd mantissa, or zero with [mantissa = 0] and [exp2 = 0]; the two
    infinities; not-a-number. *)
Inductive pyfloat :=
| Finite (neg : bool) (mantissa : N) (exp2 : Z)
| Inf (neg : bool)
| NaNf.

(** [p = o * 2^t] with [o] odd. *)
Fixpoint odd_part (p : positive) : positive * Z :=
  match p with
  | xO p' => let '(o, t) := odd_part p' in (o, Z.succ t)
  | _ => (p, 0%Z)
  end.

(** The float [(-1)^neg * q * 2^k], for [q] and [k] within the format. *)
Definition dyadic (neg : bool) (q k : Z) : pyfloat :=
  match q with
  | Zpos p => let '(o, t) := odd_part p in Finite neg (Npos o) (k + t)
  | _ => Finite neg 0 0
  end.

(** [num / den] to the nearest integer, a tie to the even one. *)
Definition round_half_even (num den : Z) : Z :=
  let q := (num / den)%Z in
  let r := (num mod den)%Z in
  if (2 * r <? den)%Z then q
  else if (den <? 2 * r)%Z then (q + 1)%Z
  else if Z.even q then q else (q + 1)%Z.

(** The binary64 nearest to [num / den], for [0 <= num] and [0 < den]:
    53 bits of precision, the last place no finer than [2^-1074], a tie
    to the even significand, and infinity from [2^1024] on. *)
Definition round_ratio (neg : bool) (num den : Z) : pyfloat :=
  if (num =? 0)%Z then Finite neg 0 0
  else
    let k0 := (Z.log2 num - Z.log2 den - 52)%Z in
    let k1 :=
      if (num * 2 ^ Z.max (- k0) 0 <? den * 2 ^ Z.max k0 0 * 2 ^ 52)%Z
      then (k0 - 1)%Z else k0 in
    let k := Z.max k1 (-1074) in
    let q := round_half_even (num * 2 ^ Z.max (- k) 0) (den * 2 ^ Z.max k 0) in
    if (971 <? k)%Z || ((k =? 971)%Z && (q =? 2 ^ 53)%Z) then Inf neg
    else dyadic neg q k.

(** What [float] makes of the decimal [(-1)^neg * mantissa * 10^exp10]:
    the conversion is correctly rounded. *)
Definition round_to_double (neg : bool) (mantissa : N) (exp10 : Z) : pyfloat :=
  round_ratio neg (Z.of_N mantissa * 10 ^ Z.max exp10 0) (10 ^ Z.max (- exp10) 0).

(** ** The data frame and the output record *)

Inductive dtype := DObject | DOther.

#[global] Instance dtype_eq_dec : EqDecision dtype.
Proof. solve_decision. Defined.

(** A frame as [pd.read_csv] returns it: the labelled columns in file
    order and the rows, each a [Series] indexed by the labels. *)
Record DataFrame := {
  schema : list (string * dtype);
  rows : list (gmap string val)
}.

(** [df.columns] *)
Definition columns (df : DataFrame) : list string := (schema df).*1.

(** [df.select_dtypes(include="object").columns.tolist()] *)
Definition select_dtypes_object (df : DataFrame) : list string :=
  (filter (fun cd => cd.2 = DObject) (schema df)).*1.

(** [row.get(c, default)] *)
Definition row_get (row : gmap string val) (c : string) (default : val) : val :=
  match row !! c with
  | Some v => v
  | None => default
  end.

(** The dictionary [out], lines 90-120; [None] is JSON's [null]. *)
Record OutputRecord := {
  Name_EN : val;
  Name_TC : val;
  Address_EN : val;
  Address_TC : val;
  District_EN : val;
  District_TC : val;
  Latitude : option pyfloat;
  Longitude : option pyfloat;
  Keyword_EN : list pystr;
  Keyword_TC : list pystr
}.

(** [for x in xs: st = body(st, x)], leaving at the first exception. *)
Fixpoint for_in {S X} (body : S -> X -> result S) (st : S) (xs : list X)
  : result S :=
  match xs with
  | [] => Ok st
  | x :: xs' => st' ← body st x; for_in body st' xs'
  end.

(** The command line after [parse_args]: [--min_matches] is read with
    [type=int] and nothing else. *)
Record Args := {
  input : string;
  output : string;
  min_matches : Z
}.

(** What [__main__] reports. *)
Inductive outcome :=
| InputNotFound
| Report (total_rows matched_rows : nat) (out_file : string).

(** ** Sample data

    A small table in the shape of the FEHD file, and stand-ins for the
    parameters of the development, to run the model on. *)

Module Sample.

(** Ideographs of the CJK Unified block are word characters. *)
Definition isalnum (c : N) : bool := in_range 0x4E00 0x9FFF c.

(** The full-width digits. *)
Definition decimal (c : N) : option N :=
  if in_range 0xFF10 0xFF19 c then Some (c - 0xFF10) else None.

Definition layout : list (string * dtype) :=
  [("NSEARCH03_EN", DObject); ("NSEARCH03_TC", DObject);
   ("ADDRESS_EN", DObject); ("SEARCH01_EN", DObject);
   ("LATITUDE", DObject); ("LONGITUDE", DObject)]%string.

Definition make_row (name_en name_tc address district lat lon : val)
  : gmap string val :=
  list_to_map
    [("NSEARCH03_EN", name_en); ("NSEARCH03_TC", name_tc);
     ("ADDRESS_EN", address); ("SEARCH01_EN", district);
     ("LATITUDE", lat); ("LONGITUDE", lon)]%string.

(** Scenario A: only the name has a keyword. *)
Definition green : gmap string val :=
  make_row (Str (utf8 "Green Vegetarian Restaurant")) NaN
           (Str (utf8 " G/F, 1 Main Street ")) (Str (utf8 "Wan Chai"))
           (Str (utf8 "22,302")) (Str (utf8 "114.177")).

(** The same name, and a second keyword in the address. *)
Definition green_on_vegan_road : gmap string val :=
  make_row (Str (utf8 "Green Vegetarian Restaurant")) NaN
           (Str (utf8 "12 Vegan Road")) (Str (utf8 "Wan Chai"))
           (Str (utf8 "22.28")) (Str (utf8 "unknown")).

(** No name in either language; the address has a keyword. *)
Definition nameless : gmap string val :=
  make_row NaN NaN (Str (utf8 "G/F, 3 Vegan Lane")) NaN NaN NaN.

(** A Chinese name with the longer keyword. *)
Definition kung_tak_lam : gmap string val :=
  make_row NaN (Str (utf8 "功德林素食館")) (Str (utf8 "5 Queen Street"))
           (Str (utf8 "Central")) NaN NaN.

(** Scenario B: a keyword in each language. *)
Definition vegan_house : gmap string val :=
  make_row (Str (utf8 "Vegan House")) NaN
           (Str (utf8 "G/F, 素食 Court, 2 Hill Road")) (Str (utf8 "Sai Kung"))
           NaN NaN.

(** No keyword at all. *)
Definition noodles : gmap string val :=
  make_row (Str (utf8 "ABC Noodles")) (Str (utf8 "甲乙丙麵家"))
           (Str (utf8 "7 King Street")) (Str (utf8 "Central")) NaN NaN.

Definition frame_of (rws : list (gmap string val)) : DataFrame :=
  {| schema := layout; rows := rws |}.

Definition df : DataFrame :=
  frame_of [green; green_on_vegan_road; nameless; kung_tak_lam; noodles;
            vegan_house].

(** A frame none of whose columns is a candidate of [Address_TC]. *)
Definition names_only : DataFrame :=
  {| schema := [("NSEARCH03_EN", DObject)]%string;
     rows := [{[ "NSEARCH03_EN"%string := Str (utf8 "Veggie Corner") ]}] |}.

(** A reader that knows one file, and a writer that lists the English
    names of the records. *)
Definition csv : string := "the sample file".

Definition read_csv (content : string) : result DataFrame :=
  if decide (content = csv) then Ok df else Raise ParserError.

Definition render (s : pystr) : string :=
  String.string_of_list_ascii
    ((fun c => if c <? 128 then Ascii.ascii_of_N c else Ascii.ascii_of_N 0x3F) <$> s).

Definition json_dump (outs : list OutputRecord) : string :=
  String.concat "; " ((fun out => match Name_EN out with
                               | Str s => render s
                               | _ => "null"%string
                               end) <$> outs).

Definition fs : gmap string string :=
  {[ "FEHD_RL_converted.csv"%string := csv ]}.

(** All paths are taken from one directory, where [./name] is [name]. *)
Definition realpath (path : string) : string :=
  if String.prefix "./" path
  then String.substring 2 (String.length path - 2) path
  else path.

(** The directory has no subdirectory [missing], so nothing can be
    opened there; every other path can be written. *)
Definition write_error (fs : gmap string string) (path : string) : option exn :=
  if String.prefix "missing/" (realpath path) then Some FileNotFoundError
  else None.

(** The same files, and an output left behind by an earlier run. *)
Definition fs_stale : gmap string string :=
  <[ "vegetarian_restaurants_selected.json"%string := "[]"%string ]> fs.

(** The record expected for [green_on_vegan_road]. *)
Definition green_on_vegan_road_record : OutputRecord :=
  {| Name_EN := Str (utf8 "Green Vegetarian Restaurant");
     Name_TC := Str [];
     Address_EN := Str (utf8 "12 Vegan Road");
     Address_TC := Str [];
     District_EN := Str (utf8 "Wan Chai");
     District_TC := Str [];
     Latitude := Some (round_to_double false 2228 (-2));
     Longitude := None;
     Keyword_EN := [utf8 "vegetarian"; utf8 "vegan"];
     Keyword_TC := [] |}.

Definition args (m : Z) : Args :=
  {| input := "FEHD_RL_converted.csv";
     output := "vegetarian_restaurants_selected.json";
     min_matches := m |}.

End Sample.

(** A decidable fact about concrete data, settled by evaluation. *)
Ltac by_decision := apply (bool_decide_unpack _); vm_compute; exact I.

(** ** The Unicode tables behind [re] and [float]

    The Unicode character database is not part of the repository.  The
    two tables the program consults through the Python library are
    parameters of the development; they are only ever asked about code
    points outside ASCII. *)

Section Pipeline.

Set Default Proof Using "Type".

(** [str.isalnum] of a one-character string (the part of [\w] beyond the
    underscore). *)
Variable ucd_isalnum : N -> bool.

(** The digit value of a character of category Nd, if it is one. *)
Variable ucd_decimal : N -> option N.

(** ** The regular expression [eng_pattern] *)

Definition ascii_alnum (c : N) : bool :=
  in_range 0x30 0x39 c || in_range 0x41 0x5A c || in_range 0x61 0x7A c.

(** [\w] of a [str] pattern. *)
Definition is_word (c : N) : bool :=
  if c <? 128 then ascii_alnum c || (c =? 0x5F) else ucd_isalnum c.

Definition word_at (o : option N) : bool :=
  match o with
  | Some c => is_word c
  | None => false
  end.

(** [\b] between the character before a position and the one at it
    ([None] at either end of the text). *)
Definition at_boundary (prev next : option N) : bool :=
  xorb (word_at prev) (word_at next).

Definition ascii_lower (c : N) : N :=
  if in_range 0x41 0x5A c then c + 32 else c.

(** Simple lower-case mapping, as far as its image is ASCII: besides the
    capital letters only U+0130 and U+212A are mapped into ASCII. *)
Definition sre_lower (c : N) : N :=
  if c =? 0x130 then 0x69
  else if c =? 0x212A then 0x6B
  else ascii_lower c.

(** A literal [p] of the pattern against the character [c] of the text
    under [re.IGNORECASE].  The literals of [eng_pattern] are ASCII; the
    letters [i] and [s] also match U+0131 and U+017F. *)
Definition ignorecase_eq (p c : N) : bool :=
  let lo := ascii_lower p in
  (sre_lower c =? lo)
  || ((lo =? 0x69) && (c =? 0x131))
  || ((lo =? 0x73) && (c =? 0x17F)).

(** One escaped keyword against the text at the current position: the
    matched characters of the text, if it matches. *)
Fixpoint match_literal (k text : pystr) : option pystr :=
  match k, text with
  | [], _ => Some []
  | _ :: _, [] => None
  | p :: k', c :: text' =>
      if ignorecase_eq p c then (c ::.) <$> match_literal k' text' else None
  end.

(** The character in front of the position where a match [m] that
    started after [prev] ends. *)
Definition char_before_end (prev : option N) (m : pystr) : option N :=
  match last m with
  | Some c => Some c
  | None => prev
  end.

(** One alternative followed by the closing [\b]. *)
Definition match_alternative (prev : option N) (text k : pystr) : option pystr :=
  match match_literal k text with
  | Some m =>
      if at_boundary (char_before_end prev m) (head (drop (length m) text))
      then Some m else None
  | None => None
  end.

(** The alternatives are tried in the order they are listed; the first
    one that matches together with the closing [\b] wins. *)
Fixpoint first_alternative (prev : option N) (text : pystr) (ks : list pystr)
  : option pystr :=
  match ks with
  | [] => None
  | k :: ks' =>
      match match_alternative prev text k with
      | Some m => Some m
      | None => first_alternative prev text ks'
      end
  end.

(** [eng_keywords], line 67. *)
Definition eng_keywords : list pystr :=
  utf8 <$> ["vegetarian"; "vegan"; "veggie"; "vegan-friendly";
            "vegetarian-friendly"; "plant-based"; "plant based";
            "pure veg"; "pure-veg"; "veg"]%string.

(** [cn_keywords], line 69. *)
Definition cn_keywords : list pystr :=
  utf8 <$> ["素食"; "純素"; "全素"; "齋"; "素菜"; "素食館"; "素食店";
            "素餐"; "素齋"; "素家"]%string.

(** [eng_pattern], line 68, at one position of the text:
    [\b(k1|...|k10)\b] with every [k] escaped, hence literal. *)
Definition eng_pattern_at (prev : option N) (text : pystr) : option pystr :=
  if at_boundary prev (head text) then first_alternative prev text eng_keywords
  else None.

(** [eng_pattern.findall]: the text is scanned from left to right; after a
    match the scan resumes behind it, otherwise at the next character.
    [skip] counts the characters of the last match still to be passed. *)
Fixpoint findall_from (skip : nat) (prev : option N) (text : pystr)
  : list pystr :=
  match text with
  | [] => []
  | c :: text' =>
      match skip with
      | S n => findall_from n (Some c) text'
      | O =>
          match eng_pattern_at prev text with
          | Some m => m :: findall_from (length m - 1) (Some c) text'
          | None => findall_from 0 (Some c) text'
          end
      end
  end.

Definition findall (text : pystr) : list pystr := findall_from 0 None text.

(** [str.lower] on one character.  It is applied to matches of
    [eng_pattern] only, whose characters are ASCII, U+0130, U+0131 or
    U+017F. *)
Definition lower_char (c : N) : pystr :=
  if c =? 0x130 then [0x69; 0x307] else [ascii_lower c].

(** [m.lower()] *)
Definition lower (m : pystr) : pystr := m ≫= lower_char.

(** ** [float] *)

Definition is_digit (c : N) : bool := in_range 0x30 0x39 c.

(** White space of the C locale, which [float] strips after the
    translation to ASCII. *)
Definition c_isspace (c : N) : bool := in_range 0x09 0x0D c || (c =? 0x20).

(** Unicode spaces and decimal digits are brought to ASCII before the
    number is read; any other character above ASCII becomes [?]. *)
Definition to_ascii (c : N) : N :=
  if c <? 127 then c
  else if isspace c then 0x20
  else match ucd_decimal c with
       | Some d => 0x30 + d
       | None => 0x3F
       end.

(** Underscores are dropped; each must stand between two digits. *)
Fixpoint drop_underscores (prev : N) (s : pystr) : option pystr :=
  match s with
  | [] => if prev =? 0x5F then None else Some []
  | c :: s' =>
      if c =? 0x5F then
        if is_digit prev then drop_underscores c s' else None
      else if (prev =? 0x5F) && negb (is_digit c) then None
      else (c ::.) <$> drop_underscores c s'
  end.

Fixpoint span_digits (s : pystr) : pystr * pystr :=
  match s with
  | c :: s' =>
      if is_digit c then let '(ds, r) := span_digits s' in (c :: ds, r)
      else ([], s)
  | [] => ([], [])
  end.

Definition digits_value (ds : pystr) : N :=
  foldl (fun acc c => 10 * acc + (c - 0x30)) 0 ds.

Definition read_sign (s : pystr) : bool * pystr :=
  match s with
  | c :: s' =>
      if c =? 0x2D then (true, s')
      else if c =? 0x2B then (false, s')
      else (false, s)
  | [] => (false, s)
  end.

(** [inf], [infinity] or [nan] in any case, after an optional sign. *)
Definition read_inf_or_nan (s : pystr) : option pyfloat :=
  let '(neg, body) := read_sign s in
  let low := ascii_lower <$> body in
  if bool_decide (low = utf8 "inf") || bool_decide (low = utf8 "infinity")
  then Some (Inf neg)
  else if bool_decide (low = utf8 "nan") then Some NaNf
  else None.

(** An exponent is read only when it has a digit. *)
Definition read_exponent (s : pystr) : Z * pystr :=
  match s with
  | c :: s' =>
      if (c =? 0x65) || (c =? 0x45) then
        let '(neg, s1) := read_sign s' in
        let '(ds, r) := span_digits s1 in
        match ds with
        | [] => (0%Z, s)
        | _ => ((if neg then - Z.of_N (digits_value ds)
                 else Z.of_N (digits_value ds))%Z, r)
        end
      else (0%Z, s)
  | [] => (0%Z, s)
  end.

(** A decimal numeral [[sign] digits [. digits] [e [sign] digits]] with a
    digit before or after the point; the whole text has to be used up,
    and the numeral is rounded to the nearest float. *)
Definition read_number (s : pystr) : option pyfloat :=
  let '(neg, s1) := read_sign s in
  let '(ip, s2) := span_digits s1 in
  let '(fp, s3) :=
    match s2 with
    | c :: r => if c =? 0x2E then span_digits r else ([], s2)
    | [] => ([], s2)
    end in
  match ip ++ fp with
  | [] => read_inf_or_nan s
  | ds =>
      let '(e, rest) := read_exponent s3 in
      match rest with
      | [] => Some (round_to_double neg (digits_value ds) (e - Z.of_nat (length fp)))
      | _ => None
      end
  end.

Definition c_strip (s : pystr) : pystr := strip_by c_isspace s.

(** [float(s)] for a string [s]. *)
Definition float_of_str (s : pystr) : result pyfloat :=
  match drop_underscores 0 (to_ascii <$> s) with
  | Some t =>
      match read_number (c_strip t) with
      | Some x => Ok x
      | None => Raise ValueError
      end
  | None => Raise ValueError
  end.

(** [float(v)] *)
Definition py_float (v : val) : result pyfloat :=
  match v with
  | Str s => float_of_str s
  | NaN => Ok NaNf
  | PyNone => Raise TypeError
  end.

(** [to_float_or_none], lines 28-38. *)
Definition to_float_or_none (v : val) : result (option pyfloat) :=
  if isna v then Ok None
  else
    try_except (x ← py_float v; Ok (Some x))
      (try_except
         (x ← py_float (Str (strip (remove_char 0x2C (py_str v)))); Ok (Some x))
         (Ok None)).

(** ** [filter_and_select] *)

(** [col_map], lines 46-55. *)
Definition col_map : gmap string (list string) :=
  list_to_map
    [("Name_EN", ["NSEARCH03_EN"; "NAME_EN"; "NSEARCH03"; "ESTABLISHMENT_NAME_EN"]);
     ("Name_TC", ["NSEARCH03_TC"; "NAME_TC"; "NSEARCH03_TC"]);
     ("Address_EN", ["ADDRESS_EN"; "ADDRESS"]);
     ("Address_TC", ["ADDRESS_TC"]);
     ("District_EN", ["SEARCH01_EN"]);
     ("District_TC", ["SEARCH01_TC"]);
     ("Latitude", ["LATITUDE"]);
     ("Longitude", ["LONGITUDE"])]%string.

Definition search_candidates : list string :=
  col_map !!! "Name_EN"%string ++ col_map !!! "Name_TC"%string
  ++ ["ADDRESS_EN"; "ADDRESS_TC"; "DATASET_EN"; "DATASET_TC";
      "NAME_EN"; "NAME_TC"]%string.

(** Lines 58-64. *)
Definition search_columns (df : DataFrame) : list string :=
  let found :=
    foldl (fun acc c =>
             if decide (c ∈ columns df ∧ c ∉ acc) then acc ++ [c] else acc)
          [] search_candidates in
  match found with
  | [] => select_dtypes_object df
  | _ => found
  end.

(** Lines 80-83. *)
Definition scan_english (en_matches : list pystr) (v : pystr) : list pystr :=
  foldl (fun en m =>
           let token := lower m in
           if decide (token ∉ en) then en ++ [token] else en)
        en_matches (findall v).

(** Lines 85-87. *)
Definition scan_chinese (cn_matches : list pystr) (v : pystr) : list pystr :=
  foldl (fun cn kw =>
           if decide (contains kw v = true ∧ kw ∉ cn) then cn ++ [kw] else cn)
        cn_matches cn_keywords.

(** The body of the loop over [search_columns], lines 76-87. *)
Definition scan_column (row : gmap string val)
    (acc : list pystr * list pystr) (col : string) : list pystr * list pystr :=
  match row_get row col (Str []) with
  | Str v => (scan_english acc.1 v, scan_chinese acc.2 v)
  | _ => acc
  end.

(** [en_matches] and [cn_matches] of a row when line 88 is reached. *)
Definition match_row (df : DataFrame) (row : gmap string val)
  : list pystr * list pystr :=
  foldl (scan_column row) ([], []) (search_columns df).

(** [first_existing], lines 92-98. *)
Fixpoint first_existing (df : DataFrame) (row : gmap string val)
    (candidates : list string) : val :=
  match candidates with
  | [] => Str []
  | c :: candidates' =>
      if decide (c ∈ columns df) then
        match row_get row c PyNone with
        | Str v =>
            if decide (strip v ≠ []) then Str (strip v)
            else first_existing df row candidates'
        | _ => first_existing df row candidates'
        end
      else first_existing df row candidates'
  end.

(** The loops of lines 108-115: the first candidate that is a column
    decides. *)
Fixpoint first_coordinate (df : DataFrame) (row : gmap string val)
    (candidates : list string) : result (option pyfloat) :=
  match candidates with
  | [] => Ok None
  | c :: candidates' =>
      if decide (c ∈ columns df) then to_float_or_none (row_get row c PyNone)
      else first_coordinate df row candidates'
  end.

(** Lines 90-120. *)
Definition build_record (df : DataFrame) (row : gmap string val)
    (en_matches cn_matches : list pystr) : result OutputRecord :=
  lat_val ← first_coordinate df row (col_map !!! "Latitude"%string);
  lon_val ← first_coordinate df row (col_map !!! "Longitude"%string);
  Ok {| Name_EN := first_existing df row (col_map !!! "Name_EN"%string);
        Name_TC := first_existing df row (col_map !!! "Name_TC"%string);
        Address_EN := first_existing df row (col_map !!! "Address_EN"%string);
        Address_TC := first_existing df row (col_map !!! "Address_TC"%string);
        District_EN := first_existing df row (col_map !!! "District_EN"%string);
        District_TC := first_existing df row (col_map !!! "District_TC"%string);
        Latitude := lat_val;
        Longitude := lon_val;
        Keyword_EN := en_matches;
        Keyword_TC := cn_matches |}.

(** The body of the loop over the rows, lines 73-121. *)
Definition row_step (df : DataFrame) (min_matches : Z)
    (matched : list OutputRecord) (row : gmap string val)
  : result (list OutputRecord) :=
  let '(en_matches, cn_matches) := match_row df row in
  if decide (Z.of_nat (length en_matches + length cn_matches) >= min_matches)%Z
  then out ← build_record df row en_matches cn_matches; Ok (matched ++ [out])
  else Ok matched.

(** Lines 71-121: [matched] after the loop. *)
Definition select_rows (df : DataFrame) (min_matches : Z)
  : result (list OutputRecord) :=
  for_in (row_step df min_matches) [] (rows df).

(** The two collaborators at the ends of the pipeline, on the contents
    of a file: [pd.read_csv(_, dtype=str)] and [json.dump].  What a path
    holds and [read_csv] cannot read, a directory for one, is an entry
    on which [read_csv] raises. *)
Variable read_csv : string -> result DataFrame.
Variable json_dump : list OutputRecord -> string.

(** The operating system.  The files are kept by the name [realpath]
    gives their paths, two paths of one file having one name; and in a
    state of the files [write_error] is the exception, if there is one,
    with which [open(path, "w")] or the writing ends: the directory is
    missing, the path is a directory, permission is denied. *)
Variable realpath : string -> string.
Variable write_error : gmap string string -> string -> option exn.

(** Lines 124-125. *)
Definition write_text (fs : gmap string string) (path text : string)
  : result (gmap string string) :=
  match write_error fs path with
  | Some e => Raise e
  | None => Ok (<[realpath path := text]> fs)
  end.

(** [filter_and_select], lines 41-127, over a file system. *)
Definition filter_and_select (fs : gmap string string)
    (input_path output_path : string) (min_matches : Z)
  : result (gmap string string * (nat * nat * string)) :=
  content ← match fs !! realpath input_path with
            | Some content => Ok content
            | None => Raise FileNotFoundError
            end;
  df ← read_csv content;
  matched ← select_rows df min_matches;
  fs' ← write_text fs output_path (json_dump matched);
  Ok (fs', (length (rows df), length matched, output_path)).

(** Lines 129-139. *)
Definition main (args : Args) (fs : gmap string string)
  : result (gmap string string * outcome) :=
  match fs !! realpath (input args) with
  | None => Ok (fs, InputNotFound)
  | Some _ =>
      '(fs', (total_rows, matched_rows, out_file)) ←
        filter_and_select fs (input args) (output args) (min_matches args);
      Ok (fs', Report total_rows matched_rows out_file)
  end.

(** ** Notions of the specification *)

(** A new element is appended, a known one is left where it is: the way
    both keyword lists grow. *)
Definition add_new (acc : list pystr) (x : pystr) : list pystr :=
  if decide (x ∉ acc) then acc ++ [x] else acc.

(** The searchable cells of a row that hold a string, in scan order. *)
Definition column_text (row : gmap string val) (c : string) : option pystr :=
  match row_get row c (Str []) with
  | Str v => Some v
  | _ => None
  end.

Definition scanned_text (df : DataFrame) (row : gmap string val) : list pystr :=
  omap (column_text row) (search_columns df).

(** Every English token the scan of a row comes across, with
    repetitions, in the order the scan meets them. *)
Definition english_tokens (df : DataFrame) (row : gmap string val) : list pystr :=
  scanned_text df row ≫= (fun v => lower <$> findall v).

(** The same for the Chinese keywords: within a cell they are met in the
    order of the vocabulary. *)
Definition chinese_hits (df : DataFrame) (row : gmap string val) : list pystr :=
  scanned_text df row ≫= (fun v => filter (fun kw => contains kw v = true) cn_keywords).

(** [l] lists its elements in the order in which [stream] shows them for
    the first time. *)
Definition first_seen_order (stream l : list pystr) : Prop :=
  ∀ i j x y, (i < j)%nat → l !! i = Some x → l !! j = Some y →
    ∃ p q, stream = p ++ (x :: q) ∧ (x ∉ p) ∧ y ∉ p.

(** The number line 88 compares with [min_matches]. *)
Definition match_count (df : DataFrame) (row : gmap string val) : nat :=
  length (match_row df row).1 + length (match_row df row).2.

(** How many different strings a list holds. *)
Definition distinct_count (l : list pystr) : nat := length (remove_dups l).

(** The distinct English matches plus the distinct Chinese matches of a
    row, counted separately. *)
Definition total_distinct_matches (df : DataFrame) (row : gmap string val)
  : nat :=
  distinct_count (english_tokens df row) + distinct_count (chinese_hits df row).

(** The test of line 88. *)
Definition qualifies (df : DataFrame) (min_matches : Z) (row : gmap string val)
  : Prop :=
  (Z.of_nat (match_count df row) >= min_matches)%Z.

(** The record line 121 appends for a row that qualifies. *)
Definition record_for (df : DataFrame) (row : gmap string val)
  : result OutputRecord :=
  build_record df row (match_row df row).1 (match_row df row).2.

(** A cell that is empty or white space only. *)
Definition blank (s : pystr) : Prop := ∀ c, c ∈ s → isspace c = true.

(** [t] is [v] without its leading and trailing white space. *)
Definition trimmed_of (v t : pystr) : Prop :=
  ∃ l r, v = l ++ t ++ r ∧ blank l ∧ blank r
         ∧ (∀ c, head t = Some c → isspace c = false)
         ∧ (∀ c, last t = Some c → isspace c = false).

(** A candidate column that resolves a logical field for this row. *)
Definition populated (df : DataFrame) (row : gmap string val) (c : string)
  : Prop :=
  c ∈ columns df ∧ ∃ v, row !! c = Some (Str v) ∧ ¬ blank v.

(** A number written with digits and thousands separators only. *)
Definition grouped_digits (s : pystr) : Prop :=
  (∀ c, c ∈ s → is_digit c = true ∨ c = 0x2C) ∧ ∃ c, c ∈ s ∧ is_digit c = true.

(** The float [x] is the integer [n], exactly. *)
Definition is_integer (x : pyfloat) (n : Z) : Prop :=
  match x with
  | Finite neg m e =>
      (0 ≤ e)%Z ∧ n = ((if neg then -1 else 1) * (Z.of_N m * 2 ^ e))%Z
  | _ => False
  end.

(** [kw] occurs in [v]. *)
Definition occurs_in (kw v : pystr) : Prop := ∃ pre post, v = pre ++ kw ++ post.

(** ** Further notions *)

(** The elements of a list of labels, each where it stands first;
    [seen] are labels met before. *)
Fixpoint first_occurrences (seen l : list string) : list string :=
  match l with
  | [] => []
  | c :: l' =>
      if decide (c ∈ seen) then first_occurrences seen l'
      else c :: first_occurrences (c :: seen) l'
  end.

(** The column labels line 59 goes through, each once. *)
Definition search_priority : list string :=
  ["NSEARCH03_EN"; "NAME_EN"; "NSEARCH03"; "ESTABLISHMENT_NAME_EN";
   "NSEARCH03_TC"; "NAME_TC"; "ADDRESS_EN"; "ADDRESS_TC"; "DATASET_EN";
   "DATASET_TC"]%string.

(** The alternatives of [eng_pattern] without the two that end in
    [-friendly]. *)
Definition reportable_keywords : list pystr :=
  utf8 <$> ["vegetarian"; "vegan"; "veggie"; "plant-based"; "plant based";
            "pure veg"; "pure-veg"; "veg"]%string.

(** The three letters beyond ASCII that [re.IGNORECASE] lets stand for
    [i] and [s]. *)
Definition folds_to_ascii (c : N) : Prop := c = 0x130 ∨ c = 0x131 ∨ c = 0x17F.

(** A text with its ASCII capitals in lower case. *)
Definition lower_ascii (s : pystr) : pystr := ascii_lower <$> s.

(** The loop of lines 75-87 over any list of columns; [match_row] runs
    it over [search_columns]. *)
Definition scan_columns (row : gmap string val) (cols : list string)
  : list pystr * list pystr :=
  foldl (scan_column row) ([], []) cols.

(** A cell that holds no number: absent, [NaN], [None], or a text that is
    empty or white space only. *)
Definition no_number (v : val) : Prop :=
  match v with
  | Str s => blank s
  | _ => True
  end.

(** A frame with the columns of [sch] and the rows [rws]. *)
Definition frame (sch : list (string * dtype)) (rws : list (gmap string val))
  : DataFrame :=
  {| schema := sch; rows := rws |}.

(** ** Lemmas on the pattern *)

Lemma match_literal_prefix k text m :
  match_literal k text = Some m →
  ∃ rest, text = m ++ rest
          ∧ Forall2 (fun p c => ignorecase_eq p c = true) k m.
Proof.
  revert text m. induction k as [|p k IH]; intros text m; simpl.
  - intros [= <-]. by exists text.
  - destruct text as [|c text]; [done|].
    destruct (ignorecase_eq p c) eqn:Hpc; [|done].
    destruct (match_literal k text) as [m'|] eqn:Hm; [|done].
    intros [= <-]. destruct (IH text m' Hm) as (rest & -> & Hall).
    exists rest. split; [done|]. by constructor.
Qed.

Lemma first_alternative_Some prev text ks m :
  first_alternative prev text ks = Some m →
  ∃ k, k ∈ ks ∧ match_literal k text = Some m.
Proof.
  induction ks as [|k ks IH]; simpl; [done|].
  destruct (match_alternative prev text k) as [m'|] eqn:Hk.
  - intros [= <-]. exists k. split; [by left|].
    unfold match_alternative in Hk.
    destruct (match_literal k text) as [m''|]; [|done].
    by destruct (at_boundary _ _); simplify_eq.
  - intros (k' & ? & ?)%IH. exists k'. split; [by right|done].
Qed.

Lemma eng_pattern_at_Some prev text m :
  eng_pattern_at prev text = Some m →
  ∃ k, k ∈ eng_keywords ∧ match_literal k text = Some m.
Proof.
  unfold eng_pattern_at. destruct (at_boundary _ _); [|done].
  apply first_alternative_Some.
Qed.

(** No keyword is empty, so no match is. *)
Lemma eng_pattern_at_nonempty prev text m :
  eng_pattern_at prev text = Some m → m ≠ [].
Proof.
  intros (k & Hk & Hm)%eng_pattern_at_Some.
  apply match_literal_prefix in Hm as (rest & _ & Hall).
  intros ->. apply Forall2_nil_inv_r in Hall as ->.
  assert ([] ∉ eng_keywords) as Hno by by_decision. done.
Qed.

Lemma char_before_end_cons prev c m :
  char_before_end prev (c :: m) = char_before_end (Some c) m.
Proof. unfold char_before_end. rewrite last_cons. by destruct (last m). Qed.

Lemma findall_from_skip m rest prev :
  findall_from (length m) prev (m ++ rest)
  = findall_from 0 (char_before_end prev m) rest.
Proof.
  revert prev. induction m as [|c m IH]; intros prev; [done|].
  simpl. by rewrite IH, char_before_end_cons.
Qed.

(** The scan with a counter is the scan that resumes behind a match. *)
Lemma findall_from_match prev text m :
  eng_pattern_at prev text = Some m →
  ∃ rest, text = m ++ rest
          ∧ findall_from 0 prev text = m :: findall_from 0 (last m) rest.
Proof.
  intros Hm. pose proof (eng_pattern_at_nonempty _ _ _ Hm) as Hne.
  destruct (eng_pattern_at_Some _ _ _ Hm) as (k & _ & Hk).
  apply match_literal_prefix in Hk as (rest & Htext & _).
  exists rest. split; [done|]. destruct m as [|c m]; [done|]. subst text.
  change ((c :: m) ++ rest) with (c :: (m ++ rest)) in *.
  cbn [findall_from]. rewrite Hm. cbn [length]. rewrite Nat.sub_1_r. simpl Nat.pred.
  rewrite findall_from_skip. do 2 f_equal.
  rewrite <- (char_before_end_cons prev). unfold char_before_end.
  by destruct (last (c :: m)) eqn:E; [|apply last_None in E].
Qed.

Lemma findall_from_no_match prev c text :
  eng_pattern_at prev (c :: text) = None →
  findall_from 0 prev (c :: text) = findall_from 0 (Some c) text.
Proof. intros Hm. cbn [findall_from]. by rewrite Hm. Qed.

Lemma findall_from_elem skip prev text m :
  m ∈ findall_from skip prev text →
  ∃ prev' text', eng_pattern_at prev' text' = Some m.
Proof.
  revert skip prev. induction text as [|c text IH]; intros skip prev; simpl.
  - by intros ?%elem_of_nil.
  - destruct skip as [|n]; [|apply IH].
    destruct (eng_pattern_at prev (c :: text)) as [m'|] eqn:Hm; [|apply IH].
    intros [->|Hin]%elem_of_cons; [by exists prev, (c :: text)|].
    by apply IH in Hin.
Qed.

Lemma ignorecase_eq_alphabet p c :
  p < 128 → ascii_lower p ≠ 0x6B → ignorecase_eq p c = true →
  c < 128 ∨ c = 0x130 ∨ c = 0x131 ∨ c = 0x17F.
Proof.
  intros Hp Hk. unfold ignorecase_eq, sre_lower.
  assert (ascii_lower p < 128) as Hlo.
  { unfold ascii_lower, in_range.
    destruct (N.leb_spec 65 p), (N.leb_spec p 90); simpl; lia. }
  destruct (N.eqb_spec c 0x130); [by auto|].
  destruct (N.eqb_spec c 0x212A).
  - rewrite !orb_true_iff, !andb_true_iff, !N.eqb_eq. lia.
  - rewrite !orb_true_iff, !andb_true_iff, !N.eqb_eq.
    intros [[Hc|[_ ?]]|[_ ?]]; [|by auto..]. left.
    revert Hc. unfold ascii_lower at 1. unfold in_range.
    destruct (N.leb_spec 65 c), (N.leb_spec c 90); simpl; lia.
Qed.

(** What [lower_char] relies on: the characters of a match. *)
Lemma findall_alphabet v m c :
  m ∈ findall v → c ∈ m →
  c < 128 ∨ c = 0x130 ∨ c = 0x131 ∨ c = 0x17F.
Proof.
  intros (prev & text & Hm)%findall_from_elem Hc.
  destruct (eng_pattern_at_Some _ _ _ Hm) as (k & Hk & Hlit).
  apply match_literal_prefix in Hlit as (_ & _ & Hall).
  apply list_elem_of_lookup in Hc as [i Hi].
  destruct (Forall2_lookup_r _ _ _ _ _ Hall Hi) as (p & Hp & Hpc).
  assert (Forall (Forall (fun p => p < 128 ∧ ascii_lower p ≠ 0x6B)) eng_keywords)
    as Hkeys by by_decision.
  rewrite Forall_forall in Hkeys. specialize (Hkeys k Hk).
  rewrite Forall_forall in Hkeys.
  destruct (Hkeys p) as [? ?]; [by eapply list_elem_of_lookup_2|].
  by apply (ignorecase_eq_alphabet p).
Qed.

(** ** Lemmas on the accumulation of distinct keywords *)

Lemma add_new_elem acc x y : y ∈ add_new acc x ↔ y ∈ acc ∨ y = x.
Proof.
  unfold add_new. case_decide as Hx.
  - rewrite elem_of_app, list_elem_of_singleton. tauto.
  - split; [tauto | intros [?| ->]; done].
Qed.

Lemma add_new_NoDup acc x : NoDup acc → NoDup (add_new acc x).
Proof.
  intros Hnd. unfold add_new. case_decide; [|done].
  apply NoDup_app. split_and!; [done | | apply NoDup_singleton].
  intros y Hy ->%list_elem_of_singleton. done.
Qed.

Lemma add_new_prefix acc x : acc `prefix_of` add_new acc x.
Proof. unfold add_new. case_decide; [by apply prefix_app_r|done]. Qed.

Lemma collect_elem xs acc y :
  y ∈ foldl add_new acc xs ↔ y ∈ acc ∨ y ∈ xs.
Proof.
  revert acc. induction xs as [|x xs IH]; intros acc; simpl.
  - rewrite elem_of_nil. tauto.
  - rewrite IH, add_new_elem, elem_of_cons. intuition.
Qed.

Lemma collect_NoDup xs acc : NoDup acc → NoDup (foldl add_new acc xs).
Proof.
  revert acc. induction xs as [|x xs IH]; intros acc Hnd; simpl; [done|].
  by apply IH, add_new_NoDup.
Qed.

Lemma collect_prefix xs acc : acc `prefix_of` foldl add_new acc xs.
Proof.
  revert acc. induction xs as [|x xs IH]; intros acc; simpl; [done|].
  etrans; [apply add_new_prefix | apply IH].
Qed.

(** Two positions of a duplicate-free list hold different elements. *)
Lemma NoDup_lookup_ne (l : list pystr) i j x y :
  NoDup l → i ≠ j → l !! i = Some x → l !! j = Some y → x ≠ y.
Proof.
  intros Hnd Hij Hi Hj ->. apply Hij. eapply NoDup_lookup; eauto.
Qed.

Lemma collect_order xs acc i j x y :
  NoDup acc → (length acc ≤ i)%nat → (i < j)%nat →
  foldl add_new acc xs !! i = Some x →
  foldl add_new acc xs !! j = Some y →
  ∃ p q, xs = p ++ (x :: q) ∧ (x ∉ p) ∧ y ∉ p.
Proof.
  revert acc. induction xs as [|a xs IH]; intros acc Hnd Hlen Hij Hi Hj.
  - simpl in Hi. apply lookup_lt_Some in Hi. lia.
  - simpl in Hi, Hj.
    pose proof (collect_NoDup xs _ (add_new_NoDup acc a Hnd)) as Hnd'.
    pose proof (collect_prefix xs (add_new acc a)) as Hpre.
    assert (Ha : a ∈ add_new acc a) by (apply add_new_elem; auto).
    destruct (decide (i = length acc ∧ a ∉ acc)) as [[-> Hnew]|Hnot].
    + exists [], xs. split_and!; [|apply not_elem_of_nil..].
      simpl. f_equal.
      assert (foldl add_new (add_new acc a) xs !! length acc = Some a) as Hl.
      { eapply prefix_lookup_Some; [|done]. unfold add_new.
        rewrite decide_True by done. by rewrite lookup_app_r, Nat.sub_diag. }
      congruence.
    + assert (length (add_new acc a) ≤ i)%nat as Hlen'.
      { unfold add_new. case_decide; [|done].
        rewrite length_app. simpl. apply not_and_l in Hnot as [?|?]; [lia|done]. }
      assert (∃ n, (n < length (add_new acc a))%nat ∧
                foldl add_new (add_new acc a) xs !! n = Some a) as (n & Hn & Hna).
      { apply list_elem_of_lookup in Ha as [n Hn]. exists n. split.
        - by eapply lookup_lt_Some.
        - by eapply prefix_lookup_Some. }
      destruct (IH _ (add_new_NoDup acc a Hnd) Hlen' Hij Hi Hj)
        as (p & q & Hxs & Hxp & Hyp).
      exists (a :: p), q. split_and!; [by rewrite Hxs | |].
      * apply not_elem_of_cons. split; [|done].
        eapply NoDup_lookup_ne; [exact Hnd' | | exact Hi | exact Hna]. lia.
      * apply not_elem_of_cons. split; [|done].
        eapply NoDup_lookup_ne; [exact Hnd' | | exact Hj | exact Hna]. lia.
Qed.

(** ** The scan of a row, as one pass over its tokens *)

Lemma scan_english_collect en v :
  scan_english en v = foldl add_new en (lower <$> findall v).
Proof. unfold scan_english. by rewrite foldl_fmap. Qed.

Lemma scan_chinese_collect cn v :
  scan_chinese cn v =
  foldl add_new cn (filter (fun kw => contains kw v = true) cn_keywords).
Proof.
  unfold scan_chinese. generalize cn_keywords as kws. intros kws. revert cn.
  induction kws as [|kw kws IH]; intros cn; [done|].
  rewrite filter_cons. simpl. rewrite IH.
  destruct (decide (contains kw v = true)) as [Hin|Hout]; simpl.
  - unfold add_new. destruct (decide (kw ∉ cn)) as [Hnew|Hold].
    + by rewrite decide_True.
    + rewrite decide_False; [done|]. intros [_ ?]. done.
  - rewrite decide_False; [done|]. intros [? _]. done.
Qed.

Lemma scan_column_text row acc c :
  scan_column row acc c =
  match column_text row c with
  | Some v => (scan_english acc.1 v, scan_chinese acc.2 v)
  | None => acc
  end.
Proof. unfold scan_column, column_text. by destruct (row_get row c (Str [])). Qed.

Lemma scan_columns_collect row cols en cn :
  foldl (scan_column row) (en, cn) cols =
  (foldl add_new en (omap (column_text row) cols ≫= (fun v => lower <$> findall v)),
   foldl add_new cn
     (omap (column_text row) cols
        ≫= (fun v => filter (fun kw => contains kw v = true) cn_keywords))).
Proof.
  revert en cn. induction cols as [|c cols IH]; intros en cn; [done|].
  cbn [foldl omap list_omap]. rewrite scan_column_text.
  destruct (column_text row c) as [v|]; rewrite IH; [|done].
  cbn [mbind list_bind]. simpl.
  by rewrite !foldl_app, scan_english_collect, scan_chinese_collect.
Qed.

Lemma match_row_collect df row :
  match_row df row =
  (foldl add_new [] (english_tokens df row), foldl add_new [] (chinese_hits df row)).
Proof. apply scan_columns_collect. Qed.

(** ** Lemmas on strings *)

Lemma lstrip_by_split sp s :
  ∃ l, s = l ++ lstrip_by sp s ∧ (∀ c, c ∈ l → sp c = true)
       ∧ (∀ c, head (lstrip_by sp s) = Some c → sp c = false).
Proof.
  induction s as [|a s (l & Hs & Hl & Hh)]; simpl.
  - exists []. split_and!; [done | by intros c ?%elem_of_nil | done].
  - destruct (sp a) eqn:Ha.
    + exists (a :: l). split_and!; [by rewrite Hs at 1 | | done].
      intros c [->|?]%elem_of_cons; auto.
    + exists []. split_and!; [done | by intros c ?%elem_of_nil |].
      simpl. by intros c [= <-].
Qed.

Lemma strip_by_split sp s :
  ∃ l r, s = l ++ strip_by sp s ++ r
         ∧ (∀ c, c ∈ l → sp c = true) ∧ (∀ c, c ∈ r → sp c = true)
         ∧ (∀ c, head (strip_by sp s) = Some c → sp c = false)
         ∧ (∀ c, last (strip_by sp s) = Some c → sp c = false).
Proof.
  unfold strip_by, rstrip_by.
  destruct (lstrip_by_split sp s) as (l & Hs & Hl & Hh).
  destruct (lstrip_by_split sp (reverse (lstrip_by sp s))) as (r & Ht & Hr & Hu).
  set (t := lstrip_by sp s) in *.
  set (u := lstrip_by sp (reverse t)) in *.
  assert (t = reverse u ++ reverse r) as Ht'.
  { by rewrite <- reverse_app, <- Ht, reverse_involutive. }
  exists l, (reverse r). split_and!.
  - rewrite <- Ht'. exact Hs.
  - done.
  - intros c. rewrite elem_of_reverse. apply Hr.
  - intros c Hc. apply Hh. rewrite Ht'. apply head_app_Some. by left.
  - intros c. rewrite last_reverse. apply Hu.
Qed.

Lemma strip_by_nil sp s : strip_by sp s = [] ↔ ∀ c, c ∈ s → sp c = true.
Proof.
  destruct (strip_by_split sp s) as (l & r & Hs & Hl & Hr & Hh & _). split.
  - intros E c. rewrite Hs, E. simpl. rewrite elem_of_app. intros [?|?]; auto.
  - intros Hall. destruct (strip_by sp s) as [|c t] eqn:E; [done|].
    assert (sp c = true) as Hc.
    { apply Hall. rewrite Hs. apply elem_of_app. right. by left. }
    rewrite (Hh c) in Hc; done.
Qed.

Lemma strip_trimmed v : trimmed_of v (strip v).
Proof.
  destruct (strip_by_split isspace v) as (l & r & ? & ? & ? & ? & ?).
  by exists l, r.
Qed.

Lemma strip_blank v : strip v = [] ↔ blank v.
Proof. apply strip_by_nil. Qed.

Lemma startswith_spec p s : startswith p s = true ↔ ∃ post, s = p ++ post.
Proof.
  revert s. induction p as [|a p IH]; intros s; simpl.
  - split; [by exists s | done].
  - destruct s as [|b s].
    + split; [done | by intros [post ?]].
    + rewrite andb_true_iff, N.eqb_eq, IH. split.
      * intros [-> [post ->]]. by exists post.
      * intros [post [= -> ->]]. split; [done | by exists post].
Qed.

Lemma contains_spec kw v : contains kw v = true ↔ occurs_in kw v.
Proof.
  unfold occurs_in. induction v as [|b v IH]; simpl.
  - rewrite orb_false_r, startswith_spec. split.
    + intros [post E]. by exists [], post.
    + intros (pre & post & E). symmetry in E.
      apply app_eq_nil in E as [-> E]. by exists post.
  - rewrite orb_true_iff, startswith_spec, IH. split.
    + intros [[post E] | (pre & post & E)].
      * by exists [], post.
      * exists (b :: pre), post. by rewrite E.
    + intros (pre & post & E). destruct pre as [|c pre].
      * left. by exists post.
      * right. injection E as -> ->. by exists pre, post.
Qed.

Lemma occurs_in_weaken kw kw' v : occurs_in kw' kw → occurs_in kw v → occurs_in kw' v.
Proof.
  intros (a & b & ->) (pre & post & ->).
  exists (pre ++ a), (b ++ post). by rewrite <- !(assoc_L (++)).
Qed.

(** ** The pipeline raises no exception *)

Lemma to_float_or_none_ok v : ∃ o, to_float_or_none v = Ok o.
Proof.
  destruct v as [s| |]; [|by eexists..].
  unfold to_float_or_none. simpl.
  destruct (float_of_str s) as [x|e]; simpl; [by eexists|].
  destruct (float_of_str (strip (remove_char 44 s))) as [x|e']; simpl; by eexists.
Qed.

Lemma first_coordinate_ok df row candidates :
  ∃ o, first_coordinate df row candidates = Ok o.
Proof.
  induction candidates as [|c cs IH]; simpl; [by eexists|].
  case_decide; [apply to_float_or_none_ok | done].
Qed.

Lemma build_record_ok df row en cn :
  ∃ out, build_record df row en cn = Ok out
         ∧ Keyword_EN out = en ∧ Keyword_TC out = cn.
Proof.
  unfold build_record.
  destruct (first_coordinate_ok df row (col_map !!! "Latitude"%string)) as [lat ->].
  destruct (first_coordinate_ok df row (col_map !!! "Longitude"%string)) as [lon ->].
  simpl. by eexists.
Qed.

Lemma record_for_ok df row :
  ∃ out, record_for df row = Ok out
         ∧ Keyword_EN out = (match_row df row).1
         ∧ Keyword_TC out = (match_row df row).2.
Proof. apply build_record_ok. Qed.

#[global] Instance qualifies_dec df m row : Decision (qualifies df m row).
Proof. unfold qualifies. apply _. Defined.

Lemma row_step_qualifies df m matched row :
  qualifies df m row →
  ∃ out, record_for df row = Ok out ∧ row_step df m matched row = Ok (matched ++ [out]).
Proof.
  intros Hq. destruct (record_for_ok df row) as (out & Hout & _).
  exists out. split; [done|]. revert Hq Hout.
  unfold row_step, qualifies, match_count, record_for.
  destruct (match_row df row) as [en cn]. simpl. intros Hq Hout.
  rewrite decide_True by done. by rewrite Hout.
Qed.

Lemma row_step_rejects df m matched row :
  ¬ qualifies df m row → row_step df m matched row = Ok matched.
Proof.
  unfold row_step, qualifies, match_count.
  destruct (match_row df row) as [en cn]. simpl. intros Hq.
  by rewrite decide_False.
Qed.

Lemma for_in_row_step df m rws matched :
  ∃ outs, for_in (row_step df m) matched rws = Ok (matched ++ outs)
          ∧ Forall2 (fun row out => record_for df row = Ok out)
                    (filter (qualifies df m) rws) outs.
Proof.
  revert matched. induction rws as [|row rws IH]; intros matched.
  - exists []. by rewrite app_nil_r.
  - simpl. rewrite filter_cons. destruct (decide (qualifies df m row)) as [Hq|Hq].
    + destruct (row_step_qualifies df m matched row Hq) as (out & Hout & ->).
      simpl. destruct (IH (matched ++ [out])) as (outs & -> & Hall).
      exists (out :: outs). split; [by rewrite <- (assoc_L (++))|].
      by constructor.
    + rewrite (row_step_rejects df m matched row Hq). simpl. apply IH.
Qed.

Lemma select_rows_filter df m :
  ∃ outs, select_rows df m = Ok outs
          ∧ Forall2 (fun row out => record_for df row = Ok out)
                    (filter (qualifies df m) (rows df)) outs.
Proof. apply (for_in_row_step df m (rows df) []). Qed.

(** ** The threshold *)

Lemma collect_length xs : length (foldl add_new [] xs) = distinct_count xs.
Proof.
  unfold distinct_count. apply Permutation_length, NoDup_Permutation.
  - apply collect_NoDup, NoDup_nil_2.
  - apply NoDup_remove_dups.
  - intros x. rewrite collect_elem, elem_of_remove_dups, elem_of_nil. tauto.
Qed.

Lemma match_count_distinct df row :
  match_count df row = total_distinct_matches df row.
Proof.
  unfold match_count, total_distinct_matches.
  rewrite match_row_collect. simpl. by rewrite !collect_length.
Qed.

Lemma Forall2_functional_sublist {A B} (R : A → B → Prop) l1 l2 o1 o2 :
  (∀ a b b', R a b → R a b' → b = b') →
  l2 `sublist_of` l1 → Forall2 R l1 o1 → Forall2 R l2 o2 →
  o2 `sublist_of` o1.
Proof.
  intros Hfun Hsub. revert o1 o2.
  induction Hsub as [|a l2 l1 _ IH|a l2 l1 _ IH]; intros o1 o2 H1 H2.
  - apply Forall2_nil_inv_l in H2 as ->. apply sublist_nil_l.
  - apply Forall2_cons_inv_l in H1 as (b & o1' & Hb & H1 & ->).
    apply Forall2_cons_inv_l in H2 as (b' & o2' & Hb' & H2 & ->).
    rewrite (Hfun a b b' Hb Hb'). apply sublist_skip, IH; done.
  - apply Forall2_cons_inv_l in H1 as (b & o1' & Hb & H1 & ->).
    apply sublist_cons, IH; done.
Qed.

Lemma row_step_iff df m matched row :
  (∃ out, row_step df m matched row = Ok (matched ++ [out]))
  ↔ (Z.of_nat (total_distinct_matches df row) >= m)%Z.
Proof.
  rewrite <- match_count_distinct. change (_ >= _)%Z with (qualifies df m row).
  split.
  - intros [out Hstep]. destruct (decide (qualifies df m row)); [done|].
    rewrite row_step_rejects in Hstep by done.
    injection Hstep as Hstep. apply (f_equal length) in Hstep.
    rewrite length_app in Hstep. simpl in Hstep. lia.
  - intros Hrow. destruct (row_step_qualifies df _ matched row Hrow) as (out & _ & ?).
    by exists out.
Qed.

(** C1: a row gets an Output Record appended to the result list if and
    only if its distinct English matches plus its distinct Chinese
    matches reach [min_matches]; the result list holds exactly the
    records of these rows, in row order. *)
Theorem output_record_iff_threshold (df : DataFrame) (min_matches : Z) :
  (∀ matched row,
     (∃ out, row_step df min_matches matched row = Ok (matched ++ [out]))
     ↔ (Z.of_nat (total_distinct_matches df row) >= min_matches)%Z)
  ∧ (∀ matched row,
       ¬ (Z.of_nat (total_distinct_matches df row) >= min_matches)%Z →
       row_step df min_matches matched row = Ok matched)
  ∧ ∃ outs,
      select_rows df min_matches = Ok outs
      ∧ Forall2 (fun row out => record_for df row = Ok out)
          (filter (fun row =>
                     (Z.of_nat (total_distinct_matches df row) >= min_matches)%Z)
                  (rows df))
          outs
      ∧ Forall (fun out =>
                  (Z.of_nat (length (Keyword_EN out) + length (Keyword_TC out))
                   >= min_matches)%Z) outs.
Proof.
  assert (Hq : ∀ row, qualifies df min_matches row
                 ↔ (Z.of_nat (total_distinct_matches df row) >= min_matches)%Z).
  { intros row. unfold qualifies. by rewrite match_count_distinct. }
  split_and!.
  - intros matched row. apply row_step_iff.
  - intros matched row. rewrite <- Hq. apply row_step_rejects.
  - destruct (select_rows_filter df min_matches) as (outs & Hsel & Hall).
    exists outs. split_and!; [done | |].
    + erewrite list_filter_iff; [exact Hall|]. intros row. by rewrite Hq.
    + apply (Forall2_Forall_r _ _ _ _ Hall).
      apply Forall_forall. intros row [Hrow _]%list_elem_of_filter out Hout.
      destruct (record_for_ok df row) as (out' & Hout' & Hen & Hcn).
      assert (out' = out) as <- by congruence.
      rewrite Hen, Hcn. exact Hrow.
Qed.

(** C7: the output shrinks as [min_matches] grows: the records kept at a
    higher threshold are among those kept at any lower one, in the same
    order. *)
Theorem output_shrinks_as_min_matches_grows (df : DataFrame) (m1 m2 : Z) :
  (m1 ≤ m2)%Z →
  ∃ outs1 outs2,
    select_rows df m1 = Ok outs1 ∧ select_rows df m2 = Ok outs2
    ∧ outs2 `sublist_of` outs1
    ∧ filter (qualifies df m2) (rows df) `sublist_of` filter (qualifies df m1) (rows df).
Proof.
  intros Hm.
  destruct (select_rows_filter df m1) as (outs1 & Hsel1 & Hall1).
  destruct (select_rows_filter df m2) as (outs2 & Hsel2 & Hall2).
  assert (filter (qualifies df m2) (rows df)
            `sublist_of` filter (qualifies df m1) (rows df)) as Hsub.
  { rewrite <- (list_filter_filter_l (qualifies df m2) (qualifies df m1)).
    - apply sublist_filter.
    - unfold qualifies. intros row. lia. }
  exists outs1, outs2. split_and!; [done..| |done].
  eapply Forall2_functional_sublist; [|exact Hsub|exact Hall1|exact Hall2].
  simpl. congruence.
Qed.

Lemma filter_all {A} (P : A → Prop) `{!∀ x, Decision (P x)} (l : list A) :
  (∀ x, P x) → filter P l = l.
Proof.
  intros HP. induction l as [|x l IH]; [done|].
  rewrite filter_cons, decide_True by done. by rewrite IH.
Qed.

Lemma filter_and_select_cases fs input_path output_path m :
  filter_and_select fs input_path output_path m =
  match fs !! realpath input_path with
  | None => Raise FileNotFoundError
  | Some content =>
      match read_csv content with
      | Raise e => Raise e
      | Ok df =>
          match select_rows df m with
          | Raise e => Raise e
          | Ok matched =>
              match write_error fs output_path with
              | Some e => Raise e
              | None =>
                  Ok (<[realpath output_path := json_dump matched]> fs,
                      (length (rows df), length matched, output_path))
              end
          end
      end
  end.
Proof.
  unfold filter_and_select, write_text.
  destruct (fs !! realpath input_path) as [content|]; simpl; [|done].
  destruct (read_csv content) as [df|]; simpl; [|done].
  destruct (select_rows df m) as [matched|]; simpl; [|done].
  by destruct (write_error fs output_path).
Qed.

(** C10: [min_matches] is passed on as it was given, and when it is zero
    or negative every row qualifies: the output has one record per row,
    in row order, and a row without any match gets a record with two
    empty keyword lists.  The program then reports as many matched rows
    as rows, unless the output cannot be written. *)
Theorem nonpositive_min_matches_keeps_every_row (df : DataFrame) (args : Args) :
  (min_matches args ≤ 0)%Z →
  (∃ outs,
     select_rows df (min_matches args) = Ok outs
     ∧ length outs = length (rows df)
     ∧ Forall2 (fun row out =>
                  record_for df row = Ok out
                  ∧ (total_distinct_matches df row = 0%nat →
                     Keyword_EN out = [] ∧ Keyword_TC out = []))
               (rows df) outs)
  ∧ (∀ fs content,
       fs !! realpath (input args) = Some content → read_csv content = Ok df →
       match write_error fs (output args) with
       | None =>
           ∃ fs', main args fs =
                  Ok (fs', Report (length (rows df)) (length (rows df))
                             (output args))
       | Some e => main args fs = Raise e
       end).
Proof.
  intros Hm.
  destruct (select_rows_filter df (min_matches args)) as (outs & Hsel & Hall).
  rewrite filter_all in Hall by (intros row; unfold qualifies; lia).
  pose proof (Forall2_length _ _ _ Hall) as Hlen.
  split.
  - exists outs. split_and!; [done..|].
    eapply Forall2_impl; [exact Hall|]. simpl. intros row out Hout.
    split; [done|]. intros Hzero.
    destruct (record_for_ok df row) as (out' & Hout' & Hen & Hcn).
    assert (out' = out) as <- by congruence.
    rewrite <- match_count_distinct in Hzero. unfold match_count in Hzero.
    rewrite Hen, Hcn. split; apply length_zero_iff_nil; lia.
  - intros fs content Hfs Hcsv. unfold main.
    rewrite filter_and_select_cases, Hfs, Hcsv, Hsel.
    destruct (write_error fs (output args)) as [e|]; [done|].
    simpl. rewrite <- Hlen. by eexists.
Qed.

(** ** Determinism *)

(** C8: the records [filter_and_select] puts out are a function of the
    contents of the input file and of [min_matches] alone.  Of two runs
    on the same input, in whatever states of the other files, either
    both fail before they write, with the same exception, or both select
    the same records, those of the qualifying rows in row order; a run
    that can write its output then writes these records and returns the
    same counts, and a run that raises there raises what the writing
    raised.  When the output is not the input file, a run leaves the
    input as it was, and a second run after it writes and returns the
    same again. *)
Theorem filter_and_select_deterministic
    (fs1 fs2 : gmap string string) (input_path output_path : string) (m : Z) :
  fs1 !! realpath input_path = fs2 !! realpath input_path →
  match filter_and_select fs1 input_path output_path m,
        filter_and_select fs2 input_path output_path m with
  | Ok (fs1', r1), Ok (fs2', r2) =>
      r1 = r2
      ∧ fs1' !! realpath output_path = fs2' !! realpath output_path
      ∧ (∃ content df matched,
           fs1 !! realpath input_path = Some content ∧ read_csv content = Ok df
           ∧ select_rows df m = Ok matched
           ∧ Forall2 (fun row out => record_for df row = Ok out)
               (filter (qualifies df m) (rows df)) matched
           ∧ fs1' !! realpath output_path = Some (json_dump matched))
      ∧ (realpath input_path ≠ realpath output_path →
         fs1' !! realpath input_path = fs1 !! realpath input_path
         ∧ match filter_and_select fs1' input_path output_path m with
           | Ok (fs1'', r1') => fs1'' = fs1' ∧ r1' = r1
           | Raise e => write_error fs1' output_path = Some e
           end)
  | Raise e1, Raise e2 =>
      (e1 = e2
       ∧ (fs1 !! realpath input_path = None
          ∨ ∃ content, fs1 !! realpath input_path = Some content
                       ∧ read_csv content = Raise e1))
      ∨ (write_error fs1 output_path = Some e1
         ∧ write_error fs2 output_path = Some e2)
  | Ok _, Raise e2 => write_error fs2 output_path = Some e2
  | Raise e1, Ok _ => write_error fs1 output_path = Some e1
  end.
Proof.
  intros Hin. rewrite !filter_and_select_cases, <- Hin.
  destruct (fs1 !! realpath input_path) as [content|] eqn:Hc;
    [|left; split; [done|by left]].
  destruct (read_csv content) as [df|e] eqn:Hdf;
    [|left; split; [done|right; by exists content]].
  destruct (select_rows_filter df m) as (matched & Hsel & Hall). rewrite Hsel.
  destruct (write_error fs1 output_path) as [e1|] eqn:Hw1,
           (write_error fs2 output_path) as [e2|] eqn:Hw2;
    [by right|done|done|].
  split_and!; [done | by rewrite !lookup_insert_eq | |].
  - exists content, df, matched. by rewrite lookup_insert_eq.
  - intros Hne.
    assert (<[realpath output_path := json_dump matched]> fs1
              !! realpath input_path = Some content) as Hkept.
    { rewrite lookup_insert_ne by done. exact Hc. }
    split; [done|].
    rewrite filter_and_select_cases, Hkept, Hdf, Hsel.
    destruct (write_error (<[realpath output_path := json_dump matched]> fs1)
                output_path) as [e|] eqn:Hw; simpl; [done|].
    by rewrite insert_insert_eq.
Qed.

(** ** The keyword sequences *)

Lemma collect_first_seen xs : first_seen_order xs (foldl add_new [] xs).
Proof.
  intros i j x y Hij Hi Hj.
  apply (collect_order xs [] i j x y); [apply NoDup_nil_2|simpl; lia|done..].
Qed.

(** C5: in the record of a row neither keyword sequence repeats an
    entry, each holds exactly the keywords the scan of the searchable
    columns came across, and it lists them in the order in which the
    scan, column after column, met them for the first time. *)
Theorem keyword_sequences_distinct_first_seen
    (df : DataFrame) (row : gmap string val) (out : OutputRecord) :
  record_for df row = Ok out →
  NoDup (Keyword_EN out) ∧ NoDup (Keyword_TC out)
  ∧ (∀ t, t ∈ Keyword_EN out ↔ t ∈ english_tokens df row)
  ∧ (∀ kw, kw ∈ Keyword_TC out ↔ kw ∈ chinese_hits df row)
  ∧ first_seen_order (english_tokens df row) (Keyword_EN out)
  ∧ first_seen_order (chinese_hits df row) (Keyword_TC out).
Proof.
  intros Hout. destruct (record_for_ok df row) as (out' & Hout' & Hen & Hcn).
  assert (out' = out) as -> by congruence.
  rewrite Hen, Hcn, match_row_collect. simpl. split_and!.
  - apply collect_NoDup, NoDup_nil_2.
  - apply collect_NoDup, NoDup_nil_2.
  - intros t. rewrite collect_elem, elem_of_nil. tauto.
  - intros kw. rewrite collect_elem, elem_of_nil. tauto.
  - apply collect_first_seen.
  - apply collect_first_seen.
Qed.

Lemma scanned_text_elem df row c v :
  c ∈ search_columns df → row_get row c (Str []) = Str v →
  v ∈ scanned_text df row.
Proof.
  intros Hc Hv. apply list_elem_of_omap. exists c. split; [done|].
  unfold column_text. by rewrite Hv.
Qed.

Lemma chinese_hit_recorded df row v kw :
  v ∈ scanned_text df row → kw ∈ cn_keywords → occurs_in kw v →
  kw ∈ (match_row df row).2.
Proof.
  intros Hv Hkw Hocc. rewrite match_row_collect. simpl.
  apply collect_elem. right. apply list_elem_of_bind. exists v. split; [|done].
  apply list_elem_of_filter. split; [by apply contains_spec | done].
Qed.

Lemma NoDup_two_elements (l : list pystr) x y :
  NoDup l → x ∈ l → y ∈ l → x ≠ y → (2 ≤ length l)%nat.
Proof.
  intros Hnd Hx Hy Hne.
  destruct l as [|a [|b l]]; simpl; [by apply elem_of_nil in Hx| |lia].
  apply list_elem_of_singleton in Hx, Hy. congruence.
Qed.

(** C9: Chinese matching is plain containment, keyword by keyword, so a
    searchable cell that contains the longer keyword puts both it and
    the shorter keyword it starts with into [Keyword_TC]; the two count
    as two matches, enough for [min_matches = 2] on their own. *)
Theorem chinese_keyword_and_its_prefix_both_count
    (df : DataFrame) (row : gmap string val) (c : string) (v : pystr) :
  c ∈ search_columns df →
  row_get row c (Str []) = Str v →
  occurs_in (utf8 "素食館") v →
  utf8 "素食" ∈ (match_row df row).2
  ∧ utf8 "素食館" ∈ (match_row df row).2
  ∧ (2 ≤ length (match_row df row).2)%nat
  ∧ ∀ matched m, (m ≤ 2)%Z →
      ∃ out, row_step df m matched row = Ok (matched ++ [out])
             ∧ utf8 "素食" ∈ Keyword_TC out ∧ utf8 "素食館" ∈ Keyword_TC out.
Proof.
  intros Hc Hv Hocc.
  pose proof (scanned_text_elem df row c v Hc Hv) as Hscan.
  assert (utf8 "素食館" ∈ (match_row df row).2) as Hlong.
  { apply (chinese_hit_recorded df row v); [done| |done].
    by_decision. }
  assert (utf8 "素食" ∈ (match_row df row).2) as Hshort.
  { apply (chinese_hit_recorded df row v); [done| |].
    - by_decision.
    - apply (occurs_in_weaken (utf8 "素食館")); [|done].
      by exists [], [0x9928]. }
  assert (2 ≤ length (match_row df row).2)%nat as Hlen.
  { apply (NoDup_two_elements _ (utf8 "素食") (utf8 "素食館")); [|done..].
    rewrite match_row_collect. apply collect_NoDup, NoDup_nil_2. }
  split_and!; [done..|]. intros matched m Hm.
  destruct (row_step_qualifies df m matched row) as (out & Hout & Hstep).
  { unfold qualifies, match_count. lia. }
  destruct (record_for_ok df row) as (out' & Hout' & _ & Hcn).
  assert (out' = out) as -> by congruence.
  exists out. by rewrite Hcn.
Qed.

(** ** The column resolver *)

Lemma row_get_Str row c v : row_get row c PyNone = Str v ↔ row !! c = Some (Str v).
Proof.
  unfold row_get. destruct (row !! c) as [w|]; [|done].
  split; [by intros -> | by intros [= ->]].
Qed.

Lemma first_existing_skip df row c candidates :
  ¬ populated df row c →
  first_existing df row (c :: candidates) = first_existing df row candidates.
Proof.
  intros Hnot. simpl. case_decide as Hc; [|done].
  destruct (row_get row c PyNone) as [v| |] eqn:Hv; [|done..].
  case_decide as Hs; [|done]. exfalso. apply Hnot. split; [done|].
  exists v. split; [by apply row_get_Str|]. by rewrite <- strip_blank.
Qed.

(** C3: the resolver answers with a string in every case: the trimmed
    value of the first candidate that is a column of the frame and holds
    a string with something else than white space in this row, and the
    empty string when no candidate is such a column, in particular when
    none of them is a column at all. *)
Theorem first_existing_resolves
    (df : DataFrame) (row : gmap string val) (candidates : list string) :
  (∃ s, first_existing df row candidates = Str s
        ∧ ((∃ pre c post v,
              candidates = pre ++ c :: post
              ∧ Forall (fun c' => ¬ populated df row c') pre
              ∧ c ∈ columns df ∧ row !! c = Some (Str v) ∧ ¬ blank v
              ∧ s = strip v ∧ trimmed_of v s)
           ∨ (Forall (fun c' => ¬ populated df row c') candidates ∧ s = [])))
  ∧ ((∀ c, c ∈ candidates → c ∉ columns df) →
     first_existing df row candidates = Str []).
Proof.
  split.
  - induction candidates as [|c cs (s & Hs & IH)].
    + exists []. split; [done|]. right. by split.
    + assert (Hskip : ¬ populated df row c →
                ∃ s0, first_existing df row (c :: cs) = Str s0
                  ∧ ((∃ pre c0 post v,
                        c :: cs = pre ++ c0 :: post
                        ∧ Forall (fun c' => ¬ populated df row c') pre
                        ∧ c0 ∈ columns df ∧ row !! c0 = Some (Str v) ∧ ¬ blank v
                        ∧ s0 = strip v ∧ trimmed_of v s0)
                     ∨ (Forall (fun c' => ¬ populated df row c') (c :: cs)
                        ∧ s0 = []))).
      { intros Hnot. exists s. rewrite first_existing_skip by done.
        split; [done|]. destruct IH as [(pre & c0 & post & v & -> & ? & ?)|[? ?]].
        - left. exists (c :: pre), c0, post, v. split; [done|].
          split; [by constructor|done].
        - right. split; [by constructor|done]. }
      simpl. destruct (decide (c ∈ columns df)) as [Hc|Hc].
      2:{ rewrite <- (first_existing_skip df row c cs); [|by intros [? _]].
          apply Hskip. by intros [? _]. }
      destruct (row_get row c PyNone) as [v| |] eqn:Hv.
      2,3: (specialize (Hskip ltac:(intros (_ & v & Hv' & _);
              apply row_get_Str in Hv'; congruence));
            simpl in Hskip; rewrite decide_True, Hv in Hskip by done; exact Hskip).
      destruct (decide (strip v ≠ [])) as [Hne|He].
      * exists (strip v). split; [done|]. left. exists [], c, cs, v.
        split_and!; [done|constructor|done|by apply row_get_Str| |done|apply strip_trimmed].
        by rewrite <- strip_blank.
      * assert (¬ populated df row c) as Hnot.
        { intros (_ & v' & Hv' & Hb). apply row_get_Str in Hv'.
          assert (v' = v) as -> by congruence.
          apply Hb, strip_blank. by destruct (decide (strip v = [])). }
        specialize (Hskip Hnot). simpl in Hskip.
        rewrite decide_True, Hv, decide_False in Hskip by done. exact Hskip.
  - induction candidates as [|c cs IH]; intros Hnone; [done|].
    simpl. rewrite decide_False by (apply Hnone; left).
    apply IH. intros c' Hc'. apply Hnone. by right.
Qed.

(** ** The coordinate parser *)

Lemma lstrip_by_id sp s :
  (∀ c, head s = Some c → sp c = false) → lstrip_by sp s = s.
Proof.
  destruct s as [|a s]; [done|]. simpl. intros Hh. by rewrite (Hh a).
Qed.

Lemma strip_by_id sp (s : pystr) :
  (∀ c, c ∈ s → sp c = false) → strip_by sp s = s.
Proof.
  intros Hs. unfold strip_by, rstrip_by.
  rewrite (lstrip_by_id sp s).
  - rewrite lstrip_by_id, reverse_involutive; [done|].
    intros c Hc. rewrite head_reverse in Hc. by apply Hs, last_Some_elem_of.
  - intros c Hc. by apply Hs, head_Some_elem_of.
Qed.

Lemma to_ascii_id (s : pystr) : (∀ c, c ∈ s → c < 127) → to_ascii <$> s = s.
Proof.
  induction s as [|a s IH]; intros Hs; [done|].
  rewrite fmap_cons, IH by (intros c Hc; apply Hs; by right).
  f_equal. unfold to_ascii.
  destruct (N.ltb_spec a 127) as [|Hge]; [done|].
  specialize (Hs a ltac:(by left)). lia.
Qed.

Lemma drop_underscores_id prev (s : pystr) :
  prev ≠ 0x5F → (∀ c, c ∈ s → c ≠ 0x5F) → drop_underscores prev s = Some s.
Proof.
  revert prev. induction s as [|a s IH]; intros prev Hprev Hs; simpl.
  - by destruct (N.eqb_spec prev 0x5F).
  - assert (a ≠ 0x5F) as Ha by (apply Hs; by left).
    destruct (N.eqb_spec a 0x5F); [done|].
    destruct (N.eqb_spec prev 0x5F); [done|]. simpl.
    rewrite IH; [done..|]. intros c Hc. apply Hs. by right.
Qed.

Lemma span_digits_spec (s : pystr) :
  s = (span_digits s).1 ++ (span_digits s).2
  ∧ (∀ c, c ∈ (span_digits s).1 → is_digit c = true)
  ∧ (∀ c, head (span_digits s).2 = Some c → is_digit c = false).
Proof.
  induction s as [|a s (IH1 & IH2 & IH3)]; simpl.
  - split_and!; [done | by intros c ?%elem_of_nil | done].
  - destruct (is_digit a) eqn:Ha.
    + destruct (span_digits s) as [ds r]. simpl in *. split_and!.
      * by rewrite IH1 at 1.
      * intros c [->|Hc]%elem_of_cons; auto.
      * done.
    + simpl. split_and!; [done | by intros c ?%elem_of_nil |].
      by intros c [= <-].
Qed.

Lemma is_digit_range c : is_digit c = true → 0x30 ≤ c ≤ 0x39.
Proof.
  unfold is_digit, in_range. rewrite andb_true_iff, !N.leb_le. lia.
Qed.

Lemma float_of_digits (d : pystr) :
  d ≠ [] → (∀ c, c ∈ d → is_digit c = true) →
  float_of_str d = Ok (round_to_double false (digits_value d) 0).
Proof.
  intros Hne Hd. unfold float_of_str.
  assert (∀ c, c ∈ d → 0x30 ≤ c ≤ 0x39) as Hr
    by (intros c Hc; by apply is_digit_range, Hd).
  rewrite to_ascii_id by (intros c Hc; specialize (Hr c Hc); lia).
  rewrite drop_underscores_id; [|done|intros c Hc; specialize (Hr c Hc); lia].
  unfold c_strip. rewrite strip_by_id.
  2:{ intros c Hc. specialize (Hr c Hc). unfold c_isspace, in_range.
      destruct (N.leb_spec 9 c), (N.leb_spec c 13), (N.eqb_spec c 32);
        simpl; try done; lia. }
  unfold read_number.
  assert (read_sign d = (false, d)) as ->.
  { destruct d as [|a d]; [done|]. specialize (Hr a ltac:(by left)).
    unfold read_sign.
    destruct (N.eqb_spec a 0x2D); [lia|]. destruct (N.eqb_spec a 0x2B); [lia|done]. }
  destruct (span_digits_spec d) as (H1 & H2 & H3).
  destruct (span_digits d) as [ip r] eqn:Hsp. simpl in *.
  assert (r = []) as ->.
  { destruct r as [|a r]; [done|]. specialize (H3 a eq_refl).
    rewrite Hd in H3; [done|]. rewrite H1. apply elem_of_app. right. by left. }
  rewrite app_nil_r in H1. subst ip. simpl. rewrite app_nil_r.
  destruct d as [|a d]; [done|]. simpl. done.
Qed.

Lemma grouped_digits_chars (s : pystr) c :
  (∀ c, c ∈ s → is_digit c = true ∨ c = 0x2C) → c ∈ s →
  c < 127 ∧ c ≠ 0x5F ∧ c ≠ 0x2D ∧ c ≠ 0x2B ∧ c ≠ 0x2E ∧ c ≠ 0x65 ∧ c ≠ 0x45
  ∧ c_isspace c = false ∧ isspace c = false.
Proof.
  intros Hs Hc.
  assert (0x30 ≤ c ≤ 0x39 ∨ c = 0x2C) as Hr.
  { destruct (Hs c Hc) as [?%is_digit_range| ->]; auto. }
  split_and!; try lia.
  - unfold c_isspace, in_range.
    destruct (N.leb_spec 9 c), (N.leb_spec c 13), (N.eqb_spec c 32);
      simpl; try done; lia.
  - destruct Hr as [Hr| ->]; [|done]. unfold isspace, in_range.
    repeat match goal with
           | |- context [?a <=? ?b] => destruct (N.leb_spec a b); try lia
           | |- context [?a =? ?b] => destruct (N.eqb_spec a b); try lia
           end; done.
Qed.

Lemma float_of_str_comma (s : pystr) :
  (∀ c, c ∈ s → is_digit c = true ∨ c = 0x2C) → 0x2C ∈ s →
  float_of_str s = Raise ValueError.
Proof.
  intros Hs Hcomma. unfold float_of_str.
  rewrite to_ascii_id by (intros c Hc; by apply (grouped_digits_chars s)).
  rewrite drop_underscores_id;
    [|done|intros c Hc; by apply (grouped_digits_chars s)].
  unfold c_strip. rewrite strip_by_id
    by (intros c Hc; by apply (grouped_digits_chars s)).
  assert (read_number s = None) as ->; [|done].
  unfold read_number.
  assert (read_sign s = (false, s)) as Hsign.
  { destruct s as [|a s]; [done|]. unfold read_sign.
    destruct (grouped_digits_chars (a :: s) a Hs) as (_ & _ & ? & ? & _); [by left|].
    destruct (N.eqb_spec a 0x2D); [done|]. by destruct (N.eqb_spec a 0x2B). }
  rewrite Hsign.
  destruct (span_digits_spec s) as (H1 & H2 & H3).
  destruct (span_digits s) as [ip r] eqn:Hsp. simpl in *.
  destruct r as [|a r].
  { exfalso. rewrite app_nil_r in H1. subst ip.
    by specialize (H2 _ Hcomma). }
  assert (a ∈ s) as Ha by (rewrite H1; apply elem_of_app; right; by left).
  assert (a = 0x2C) as ->.
  { destruct (Hs a Ha) as [Hd|?]; [|done]. by rewrite (H3 a) in Hd. }
  simpl. rewrite app_nil_r. destruct ip as [|b ip]; [|done].
  simpl in H1. subst s. unfold read_inf_or_nan. rewrite Hsign.
  rewrite fmap_cons. by cbv [ascii_lower in_range N.leb N.compare Pos.compare
    Pos.compare_cont andb].
Qed.

(** A number written with thousands separators is read as the number
    its digits spell, by the first conversion when it has no comma and
    by the second otherwise. *)
Lemma to_float_or_none_grouped (s : pystr) :
  grouped_digits s →
  to_float_or_none (Str s)
  = Ok (Some (round_to_double false (digits_value (remove_char 0x2C s)) 0)).
Proof.
  intros [Hs (d & Hd & Hdigit)].
  assert (∀ c, c ∈ remove_char 0x2C s → is_digit c = true) as Hrem.
  { intros c [Hne Hc]%list_elem_of_filter. by destruct (Hs c Hc). }
  assert (remove_char 0x2C s ≠ []) as Hne.
  { intros E. assert (d ∈ remove_char 0x2C s) as Hin.
    { apply list_elem_of_filter. split; [|done]. intros ->. done. }
    rewrite E in Hin. by apply elem_of_nil in Hin. }
  assert (strip (remove_char 0x2C s) = remove_char 0x2C s) as Hstrip.
  { apply strip_by_id. intros c Hc.
    apply (grouped_digits_chars (remove_char 0x2C s)); [|done].
    intros c' Hc'. left. by apply Hrem. }
  unfold to_float_or_none. simpl.
  destruct (decide (0x2C ∈ s)) as [Hcomma|Hcomma].
  - rewrite float_of_str_comma by done. simpl.
    rewrite Hstrip, float_of_digits by done. done.
  - assert (remove_char 0x2C s = s) as Hsame.
    { clear -Hcomma. induction s as [|a s IH]; [done|].
      unfold remove_char in *. rewrite filter_cons.
      rewrite decide_True by (intros ->; apply Hcomma; by left).
      rewrite IH; [done|]. intros Hin. apply Hcomma. by right. }
    rewrite Hsame in *. rewrite float_of_digits by done. done.
Qed.

(** Integers below [2^53] are floats. *)
Lemma odd_part_spec p :
  Zpos p = (Zpos (odd_part p).1 * 2 ^ (odd_part p).2)%Z
  ∧ (0 ≤ (odd_part p).2)%Z
  ∧ Z.odd (Zpos (odd_part p).1) = true.
Proof.
  induction p as [p _|p IH|];
    [cbn [odd_part fst snd]; by rewrite Z.pow_0_r, Z.mul_1_r| |done].
  cbn [odd_part]. destruct (odd_part p) as [o t]. cbn [fst snd] in *.
  destruct IH as (E & Ht & Ho). split_and!; [|lia|done].
  rewrite Z.pow_succ_r by done. rewrite Pos2Z.inj_xO, E. ring.
Qed.

Lemma dyadic_integer neg q k n :
  (0 < q)%Z → (k ≤ 0)%Z → q = (n * 2 ^ (- k))%Z →
  is_integer (dyadic neg q k) ((if neg then -1 else 1) * n).
Proof.
  intros Hq Hk E. destruct q as [|p|p]; [lia| |lia]. unfold dyadic.
  destruct (odd_part_spec p) as (Ep & Ht & Ho).
  destruct (odd_part p) as [o t]. cbn [fst snd] in *.
  assert (- k ≤ t)%Z as Hkt.
  { destruct (Z.le_gt_cases (- k) t) as [|Hlt]; [done|]. exfalso.
    assert (Z.pos o = n * 2 ^ (- k - t))%Z as Eo.
    { apply (Z.mul_cancel_r _ _ (2 ^ t)); [apply Z.pow_nonzero; lia|].
      rewrite <- Ep, E, <- Z.mul_assoc, <- Z.pow_add_r by lia.
      do 2 f_equal. lia. }
    rewrite Eo in Ho.
    replace (- k - t)%Z with (Z.succ (- k - t - 1)) in Ho by lia.
    rewrite Z.pow_succ_r, !Z.odd_mul in Ho by lia.
    by rewrite andb_false_r in Ho. }
  split; [lia|]. f_equal.
  apply (Z.mul_cancel_r _ _ (2 ^ (- k))); [apply Z.pow_nonzero; lia|].
  rewrite <- E, Ep. change (Z.of_N (N.pos o)) with (Z.pos o).
  rewrite <- Z.mul_assoc, <- Z.pow_add_r by lia. do 2 f_equal. lia.
Qed.

Lemma round_ratio_integer neg n :
  (0 < n < 2 ^ 53)%Z →
  is_integer (round_ratio neg n 1) ((if neg then -1 else 1) * n).
Proof.
  intros [Hpos Hlt].
  destruct (Z.log2_spec n Hpos) as [Hlo _].
  assert (0 ≤ Z.log2 n < 53)%Z as Ha.
  { split; [apply Z.log2_nonneg|]. by apply Z.log2_lt_pow2. }
  assert (2 ^ Z.log2 n * 2 ^ (52 - Z.log2 n) = 2 ^ 52)%Z as Epow.
  { rewrite <- Z.pow_add_r by lia. f_equal. lia. }
  assert (0 < 2 ^ (52 - Z.log2 n))%Z as Hp by (apply Z.pow_pos_nonneg; lia).
  unfold round_ratio. destruct (Z.eqb_spec n 0) as [|_]; [lia|].
  change (Z.log2 1) with 0%Z.
  replace (Z.log2 n - 0 - 52)%Z with (Z.log2 n - 52)%Z by lia.
  rewrite (Z.max_l (- (Z.log2 n - 52)) 0), (Z.max_r (Z.log2 n - 52) 0) by lia.
  replace (- (Z.log2 n - 52))%Z with (52 - Z.log2 n)%Z by lia.
  change (1 * 2 ^ 0)%Z with 1%Z. rewrite Z.mul_1_l.
  destruct (Z.ltb_spec (n * 2 ^ (52 - Z.log2 n)) (2 ^ 52)) as [Hsmall|_]; [nia|].
  rewrite (Z.max_l (Z.log2 n - 52) (-1074)) by lia.
  rewrite (Z.max_l (- (Z.log2 n - 52)) 0), (Z.max_r (Z.log2 n - 52) 0) by lia.
  replace (- (Z.log2 n - 52))%Z with (52 - Z.log2 n)%Z by lia.
  change (1 * 2 ^ 0)%Z with 1%Z.
  unfold round_half_even. rewrite Z.div_1_r, Z.mod_1_r.
  change (2 * 0 <? 1)%Z with true. cbv iota.
  destruct (Z.ltb_spec 971 (Z.log2 n - 52)) as [|_]; [lia|].
  destruct (Z.eqb_spec (Z.log2 n - 52) 971) as [|_]; [lia|].
  cbn [orb andb]. apply dyadic_integer; [nia|lia|].
  f_equal. f_equal. lia.
Qed.

Lemma round_to_double_integer neg (n : N) :
  n < 2 ^ 53 →
  is_integer (round_to_double neg n 0) ((if neg then -1 else 1) * Z.of_N n).
Proof.
  intros Hn. unfold round_to_double.
  change (10 ^ Z.max 0 0)%Z with 1%Z. change (10 ^ Z.max (- 0) 0)%Z with 1%Z.
  rewrite Z.mul_1_r. destruct (N.eq_dec n 0) as [->|Hne].
  - destruct neg; by vm_compute.
  - apply round_ratio_integer. split; [lia|].
    change (2 ^ 53)%Z with (Z.of_N (2 ^ 53)). lia.
Qed.

(** White space around a text is what [strip] removes, and nothing
    else. *)
Lemma lstrip_by_app sp (l x : pystr) :
  (∀ c, c ∈ l → sp c = true) → lstrip_by sp (l ++ x) = lstrip_by sp x.
Proof.
  induction l as [|a l IH]; intros Hl; [done|]. simpl.
  rewrite (Hl a) by (by left). apply IH. intros c Hc. apply Hl. by right.
Qed.

Lemma strip_by_unique sp (l t r : pystr) :
  (∀ c, c ∈ l → sp c = true) → (∀ c, c ∈ r → sp c = true) →
  (∀ c, head t = Some c → sp c = false) →
  (∀ c, last t = Some c → sp c = false) →
  strip_by sp (l ++ t ++ r) = t.
Proof.
  intros Hl Hr Hhead Hlast. destruct t as [|a t].
  { apply strip_by_nil. intros c [Hc|Hc]%elem_of_app; [by apply Hl|by apply Hr]. }
  unfold strip_by, rstrip_by. rewrite lstrip_by_app by done.
  rewrite (lstrip_by_id sp ((a :: t) ++ r)) by (intros c [= <-]; by apply Hhead).
  rewrite reverse_app, lstrip_by_app.
  - rewrite lstrip_by_id, reverse_involutive; [done|].
    intros c Hc. rewrite head_reverse in Hc. by apply Hlast.
  - intros c Hc. apply Hr. by apply elem_of_reverse.
Qed.

Lemma trimmed_of_strip (v t : pystr) : trimmed_of v t → t = strip v.
Proof.
  intros (l & r & -> & Hl & Hr & Hhead & Hlast).
  symmetry. by apply strip_by_unique.
Qed.

(** C4: [to_float_or_none] raises nothing and answers with a float or
    with [None]: the float read from the value as it is when that
    succeeds; otherwise the float read from what is left of the value
    once its commas are taken out and the white space around the rest is
    cut off, when that succeeds; otherwise [None].  A number written
    with thousands separators is read as the float nearest to the number
    its digits spell, which is that number when it is below [2^53];
    ["22,302"] gives [22302.0] and ["N/A"] gives [None]; a separator
    character of the file format before the digits, which [float] does
    not accept, is cut off by the second attempt. *)
Theorem to_float_or_none_lenient (v : val) :
  (∃ o, to_float_or_none v = Ok o)
  ∧ (isna v = true → to_float_or_none v = Ok None)
  ∧ (∀ s x, v = Str s → float_of_str s = Ok x →
       to_float_or_none v = Ok (Some x))
  ∧ (∀ s e t, v = Str s → float_of_str s = Raise e →
       trimmed_of (remove_char 0x2C s) t →
       (0x2C ∉ t)
       ∧ to_float_or_none v
         = Ok (match float_of_str t with
               | Ok x => Some x
               | Raise _ => None
               end))
  ∧ (∀ s, v = Str s → grouped_digits s →
       to_float_or_none v
       = Ok (Some (round_to_double false (digits_value (remove_char 0x2C s)) 0)))
  ∧ (∀ s, v = Str s → grouped_digits s →
       digits_value (remove_char 0x2C s) < 2 ^ 53 →
       ∃ x, to_float_or_none v = Ok (Some x)
            ∧ is_integer x (Z.of_N (digits_value (remove_char 0x2C s))))
  ∧ (∃ x, to_float_or_none (Str (utf8 "22,302")) = Ok (Some x)
          ∧ is_integer x 22302)
  ∧ to_float_or_none (Str (utf8 "N/A")) = Ok None
  ∧ (float_of_str (0x1C :: utf8 "22,302 ") = Raise ValueError
     ∧ ∃ x, to_float_or_none (Str (0x1C :: utf8 "22,302 ")) = Ok (Some x)
            ∧ is_integer x 22302).
Proof.
  split_and!.
  - apply to_float_or_none_ok.
  - unfold to_float_or_none. by intros ->.
  - intros s x -> Hx. unfold to_float_or_none. simpl. by rewrite Hx.
  - intros s e t -> He Ht. split.
    + intros Hin. destruct Ht as (l & r & Hv & _).
      assert (0x2C ∈ remove_char 0x2C s) as Hc.
      { rewrite Hv, !elem_of_app. right. by left. }
      unfold remove_char in Hc. apply list_elem_of_filter in Hc. by destruct Hc.
    + rewrite (trimmed_of_strip _ _ Ht). unfold to_float_or_none. simpl.
      rewrite He. simpl.
      by destruct (float_of_str (strip (remove_char 0x2C s))).
  - intros s ->. apply to_float_or_none_grouped.
  - intros s -> Hs Hsmall. eexists. split; [by apply to_float_or_none_grouped|].
    pose proof (round_to_double_integer false _ Hsmall) as Hexact.
    cbv iota in Hexact. by rewrite Z.mul_1_l in Hexact.
  - eexists. split; [vm_compute; reflexivity|]. by vm_compute.
  - vm_compute. reflexivity.
  - vm_compute. reflexivity.
  - eexists. split; [vm_compute; reflexivity|]. by vm_compute.
Qed.

(** ** Cells that are not strings *)

Lemma scan_columns_skip row cols acc :
  foldl (scan_column row) acc cols =
  foldl (scan_column row) acc
    (filter (fun c => is_str (row_get row c (Str [])) = true) cols).
Proof.
  revert acc. induction cols as [|c cols IH]; intros acc; [done|].
  rewrite filter_cons. simpl.
  destruct (row_get row c (Str [])) as [v| |] eqn:Hv; simpl.
  - apply IH.
  - unfold scan_column at 2. rewrite Hv. apply IH.
  - unfold scan_column at 2. rewrite Hv. apply IH.
Qed.

(** C2, as the program has it: a searchable cell that is not a string
    makes the scan pass over that cell and nothing else.  The matches of
    the row are those of its searchable cells that hold a string, and
    the row is kept exactly when these reach [min_matches]. *)
Theorem non_string_cell_skips_its_column_only
    (df : DataFrame) (row : gmap string val) :
  (∀ acc c, is_str (row_get row c (Str [])) = false → scan_column row acc c = acc)
  ∧ match_row df row =
    foldl (scan_column row) ([], [])
      (filter (fun c => is_str (row_get row c (Str [])) = true) (search_columns df))
  ∧ (∀ c v, c ∈ search_columns df → row_get row c (Str []) = Str v →
       (∀ t, t ∈ lower <$> findall v → t ∈ (match_row df row).1)
       ∧ (∀ kw, kw ∈ cn_keywords → occurs_in kw v → kw ∈ (match_row df row).2))
  ∧ (∀ m matched,
       (∃ out, row_step df m matched row = Ok (matched ++ [out]))
       ↔ (Z.of_nat (total_distinct_matches df row) >= m)%Z).
Proof.
  split_and!.
  - intros acc c Hc. unfold scan_column.
    by destruct (row_get row c (Str [])).
  - apply scan_columns_skip.
  - intros c v Hc Hv. pose proof (scanned_text_elem df row c v Hc Hv) as Hscan.
    split.
    + intros t Ht. rewrite match_row_collect. simpl. apply collect_elem. right.
      apply list_elem_of_bind. by exists v.
    + intros kw Hkw Hocc. by apply (chinese_hit_recorded df row v).
  - intros m matched. apply row_step_iff.
Qed.

(** ** Scenario A *)

Lemma found_columns_elem (cols : list string) cands acc x :
  x ∈ foldl (fun acc c => if decide (c ∈ cols ∧ c ∉ acc) then acc ++ [c] else acc)
        acc cands
  ↔ x ∈ acc ∨ (x ∈ cands ∧ x ∈ cols).
Proof.
  revert acc. induction cands as [|c cands IH]; intros acc; simpl.
  - split; [by left|]. by intros [?|[?%elem_of_nil _]].
  - rewrite IH, elem_of_cons. case_decide as Hc.
    + rewrite elem_of_app, list_elem_of_singleton. destruct Hc as [Hc _].
      split.
      * intros [[Hx|Hx]|[Hx Hx']]; [by left| |by right; split; [right|]].
        right. split; [by left | by rewrite Hx].
      * intros [Hx|[[Hx|Hx] Hx']]; [by left; left|by left; right|by right].
    + split.
      * intros [Hx|[Hx Hx']]; [by left|by right; split; [right|]].
      * intros [Hx|[[Hx|Hx] Hx']]; [by left| |by right].
        left. rewrite Hx in Hx' |- *. destruct (decide (c ∈ acc)); [done|].
        exfalso. by apply Hc.
Qed.

Lemma search_columns_known df c :
  c ∈ search_candidates → c ∈ columns df → c ∈ search_columns df.
Proof.
  intros Hcand Hcol. unfold search_columns.
  set (found := foldl _ [] search_candidates).
  assert (c ∈ found) as Hc.
  { apply found_columns_elem. by right. }
  destruct found; [by apply elem_of_nil in Hc | done].
Qed.

Lemma NoDup_all_equal (l : list pystr) x :
  NoDup l → x ∈ l → (∀ y, y ∈ l → y = x) → l = [x].
Proof.
  intros Hnd Hx Hall. destruct l as [|a [|b l]].
  - by apply elem_of_nil in Hx.
  - f_equal. apply Hall. by left.
  - exfalso. assert (a = x) as -> by (apply Hall; by left).
    assert (b = x) as -> by (apply Hall; right; by left).
    apply NoDup_cons in Hnd as [Hnot _]. apply Hnot. by left.
Qed.

Lemma findall_green_vegetarian :
  findall (utf8 "Green Vegetarian Restaurant") = [utf8 "Vegetarian"].
Proof. vm_compute. reflexivity. Qed.

(** C6, as the program has it: in the name "Green Vegetarian
    Restaurant" the pattern finds "vegetarian" and nothing else ("veg"
    is not reported on top of it); a row with this name in a name column
    of the frame has "vegetarian" among its English keywords and is kept
    when [min_matches] is 1; its [Keyword_EN] is exactly ["vegetarian"]
    when no searchable cell of the row yields another English token. *)
Theorem scenario_a_vegetarian_name
    (df : DataFrame) (row : gmap string val) (c : string) :
  c ∈ col_map !!! "Name_EN"%string →
  c ∈ columns df →
  row !! c = Some (Str (utf8 "Green Vegetarian Restaurant")) →
  lower <$> findall (utf8 "Green Vegetarian Restaurant") = [utf8 "vegetarian"]
  ∧ c ∈ search_columns df
  ∧ utf8 "vegetarian" ∈ (match_row df row).1
  ∧ (∀ matched, ∃ out,
       row_step df 1 matched row = Ok (matched ++ [out])
       ∧ utf8 "vegetarian" ∈ Keyword_EN out)
  ∧ ((∀ t, t ∈ english_tokens df row → t = utf8 "vegetarian") →
     (match_row df row).1 = [utf8 "vegetarian"]).
Proof.
  intros Hname Hcol Hrow.
  assert (lower <$> findall (utf8 "Green Vegetarian Restaurant")
          = [utf8 "vegetarian"]) as Htok.
  { rewrite findall_green_vegetarian. vm_compute. reflexivity. }
  assert (c ∈ search_columns df) as Hc.
  { apply search_columns_known; [|done]. unfold search_candidates.
    apply elem_of_app. by left. }
  assert (utf8 "vegetarian" ∈ english_tokens df row) as Hin.
  { apply list_elem_of_bind. exists (utf8 "Green Vegetarian Restaurant").
    split; [rewrite Htok; by left|].
    apply (scanned_text_elem df row c); [done|]. unfold row_get. by rewrite Hrow. }
  assert (utf8 "vegetarian" ∈ (match_row df row).1) as Hen.
  { rewrite match_row_collect. simpl. apply collect_elem. by right. }
  split_and!; [done..| |].
  - intros matched.
    destruct (row_step_qualifies df 1 matched row) as (out & Hout & Hstep).
    { unfold qualifies, match_count.
      destruct (match_row df row).1; [by apply elem_of_nil in Hen|simpl; lia]. }
    destruct (record_for_ok df row) as (out' & Hout' & Hk & _).
    assert (out' = out) as -> by congruence.
    exists out. by rewrite Hk.
  - intros Hall. apply NoDup_all_equal; [|done|].
    + rewrite match_row_collect. apply collect_NoDup, NoDup_nil_2.
    + intros t Ht. apply Hall. rewrite match_row_collect in Ht. simpl in Ht.
      apply collect_elem in Ht as [Ht|Ht]; [by apply elem_of_nil in Ht|done].
Qed.

(** ** The columns that are scanned *)

Lemma search_priority_first_occurrences :
  first_occurrences [] search_candidates = search_priority.
Proof. vm_compute. reflexivity. Qed.

Lemma found_columns_filter (cols : list string) l acc seen :
  (∀ c, c ∈ acc ↔ c ∈ seen ∧ c ∈ cols) →
  foldl (fun acc c => if decide (c ∈ cols ∧ c ∉ acc) then acc ++ [c] else acc)
        acc l
  = acc ++ filter (fun c => c ∈ cols) (first_occurrences seen l).
Proof.
  revert acc seen. induction l as [|c l IH]; intros acc seen Hinv; simpl.
  - by rewrite app_nil_r.
  - destruct (decide (c ∈ seen)) as [Hseen|Hnew].
    + rewrite decide_False; [by apply IH|].
      intros [Hc Hacc]. apply Hacc, Hinv. by split.
    + assert (c ∉ acc) as Hacc by (intros [? _]%Hinv; done).
      rewrite filter_cons. destruct (decide (c ∈ cols)) as [Hc|Hc].
      * rewrite decide_True by done.
        rewrite (IH (acc ++ [c]) (c :: seen)); [by rewrite <- (assoc_L (++))|].
        intros c'. rewrite elem_of_app, list_elem_of_singleton, elem_of_cons, Hinv.
        split.
        -- intros [[? ?]| ->]; [by split; [right|]|by split; [left|]].
        -- intros [[->|?] ?]; [by right|by left].
      * rewrite decide_False by (by intros [? _]).
        apply IH. intros c'. rewrite elem_of_cons, Hinv. split.
        -- intros [? ?]. by split; [right|].
        -- intros [[->|?] ?]; [done|by split].
Qed.

Lemma search_columns_known_or_object df :
  search_columns df =
  match filter (fun c => c ∈ columns df) search_priority with
  | [] => select_dtypes_object df
  | known => known
  end.
Proof.
  unfold search_columns.
  rewrite (found_columns_filter (columns df) search_candidates [] []).
  - simpl. rewrite search_priority_first_occurrences.
    by destruct (filter _ search_priority).
  - intros c. split; [by intros ?%elem_of_nil | by intros [?%elem_of_nil _]].
Qed.

Lemma select_dtypes_object_sublist df :
  select_dtypes_object df `sublist_of` columns df.
Proof. apply fmap_sublist, sublist_filter. Qed.

(** X1: the columns that are scanned are the known labels that are
    columns of the frame, in their fixed order of priority and each
    once; only when the frame has none of them, its columns of dtype
    object are scanned instead.  Every scanned column is a column of
    the frame, and none is scanned twice when the labels of the frame
    are distinct. *)
Theorem search_columns_by_priority (df : DataFrame) :
  search_columns df =
    match filter (fun c => c ∈ columns df) search_priority with
    | [] => select_dtypes_object df
    | known => known
    end
  ∧ NoDup search_priority
  ∧ (∀ c, c ∈ search_priority ↔ c ∈ search_candidates)
  ∧ (∀ c, c ∈ search_columns df → c ∈ columns df)
  ∧ (NoDup (columns df) → NoDup (search_columns df)).
Proof.
  assert (NoDup search_priority) as Hnd by by_decision.
  split_and!.
  - apply search_columns_known_or_object.
  - done.
  - intros c. split; intros Hc.
    + assert (Forall (fun c => c ∈ search_candidates) search_priority) as Hall
        by by_decision.
      by rewrite Forall_forall in Hall; apply Hall.
    + assert (Forall (fun c => c ∈ search_priority) search_candidates) as Hall
        by by_decision.
      by rewrite Forall_forall in Hall; apply Hall.
  - intros c. rewrite search_columns_known_or_object.
    destruct (filter _ search_priority) as [|a known] eqn:E.
    + intros Hc. eapply elem_of_sublist; [exact Hc|apply select_dtypes_object_sublist].
    + rewrite <- E. by intros [? _]%list_elem_of_filter.
  - intros Hcols. rewrite search_columns_known_or_object.
    destruct (filter _ search_priority) as [|a known] eqn:E.
    + eapply sublist_NoDup; [exact Hcols|apply select_dtypes_object_sublist].
    + rewrite <- E. by apply NoDup_filter.
Qed.

(** ** What the pattern can report *)

Lemma eng_keywords_list :
  eng_keywords =
  [utf8 "vegetarian"; utf8 "vegan"; utf8 "veggie"; utf8 "vegan-friendly";
   utf8 "vegetarian-friendly"; utf8 "plant-based"; utf8 "plant based";
   utf8 "pure veg"; utf8 "pure-veg"; utf8 "veg"].
Proof. reflexivity. Qed.

Lemma match_alternative_Some prev text k m :
  match_alternative prev text k = Some m → match_literal k text = Some m.
Proof.
  unfold match_alternative. destruct (match_literal k text) as [m'|]; [|done].
  by destruct (at_boundary _ _).
Qed.

Lemma match_literal_app k1 k2 text m :
  match_literal (k1 ++ k2) text = Some m →
  ∃ m1 m2, m = m1 ++ m2 ∧ match_literal k1 text = Some m1
           ∧ length m1 = length k1
           ∧ match_literal k2 (drop (length k1) text) = Some m2.
Proof.
  revert text m. induction k1 as [|p k1 IH]; intros text m; simpl.
  - intros Hm. by exists [], m.
  - destruct text as [|c text]; [done|].
    destruct (ignorecase_eq p c); [|done].
    destruct (match_literal (k1 ++ k2) text) as [m'|] eqn:Hm'; [|done].
    intros [= <-]. destruct (IH _ _ Hm') as (m1 & m2 & -> & -> & Hlen & H2).
    exists (c :: m1), m2. simpl. by rewrite Hlen.
Qed.

Lemma ignorecase_eq_hyphen c : ignorecase_eq 0x2D c = true → c = 0x2D.
Proof.
  unfold ignorecase_eq, sre_lower. simpl.
  destruct (N.eqb_spec c 0x130); [done|].
  destruct (N.eqb_spec c 0x212A); [done|].
  rewrite !orb_false_r, N.eqb_eq. unfold ascii_lower, in_range.
  destruct (N.leb_spec 65 c), (N.leb_spec c 90); simpl; lia.
Qed.

Lemma ignorecase_eq_n c : ignorecase_eq 0x6E c = true → is_word c = true.
Proof.
  unfold ignorecase_eq, sre_lower. simpl.
  destruct (N.eqb_spec c 0x130); [done|].
  destruct (N.eqb_spec c 0x212A); [done|].
  rewrite !orb_false_r, N.eqb_eq. unfold ascii_lower, in_range.
  intros Hc. assert (c = 0x6E ∨ c = 0x4E) as [-> | ->]; [|done..].
  destruct (N.leb_spec 65 c), (N.leb_spec c 90); simpl in Hc; lia.
Qed.

(** An alternative that goes on with a hyphen behind an [n] never gets
    its turn when the part up to the [n] is listed before it. *)
Lemma shadowed_by_prefix prev text k rest m :
  match_literal ((k ++ [0x6E]) ++ 0x2D :: rest) text = Some m →
  is_Some (match_alternative prev text (k ++ [0x6E])).
Proof.
  intros (m1 & m2 & -> & Hm1 & Hlen & Hm2)%match_literal_app.
  unfold match_alternative. rewrite Hm1.
  pose proof (match_literal_prefix _ _ _ Hm1) as (rest1 & Htext & Hall).
  apply Forall2_app_inv_l in Hall as (m1' & cs & _ & Hc & ->).
  apply Forall2_cons_inv_l in Hc as (c & cs' & Hc & Hnil & ->).
  apply Forall2_nil_inv_l in Hnil as ->.
  assert (char_before_end prev (m1' ++ [c]) = Some c) as ->.
  { unfold char_before_end. by rewrite last_snoc. }
  rewrite Hlen. simpl in Hm2.
  destruct (drop (length (k ++ [0x6E])) text) as [|c' text'] eqn:Hdrop; [done|].
  destruct (ignorecase_eq 0x2D c') eqn:Hc'; [|done].
  apply ignorecase_eq_hyphen in Hc' as ->.
  unfold at_boundary. simpl. rewrite (ignorecase_eq_n c Hc). done.
Qed.

Lemma eng_pattern_at_reportable prev text m :
  eng_pattern_at prev text = Some m →
  ∃ k, k ∈ reportable_keywords ∧ match_literal k text = Some m.
Proof.
  unfold eng_pattern_at. destruct (at_boundary _ _); [|done].
  rewrite eng_keywords_list. cbn [first_alternative].
  assert (∀ k, k ∈ reportable_keywords →
            match_alternative prev text k = Some m →
            ∃ k, k ∈ reportable_keywords ∧ match_literal k text = Some m) as Hok.
  { intros k Hk Hm. exists k. split; [done|]. by eapply match_alternative_Some. }
  destruct (match_alternative prev text (utf8 "vegetarian")) as [m1|] eqn:H1.
  { intros [= ->]. apply (Hok (utf8 "vegetarian")); [by_decision|exact H1]. }
  destruct (match_alternative prev text (utf8 "vegan")) as [m2|] eqn:H2.
  { intros [= ->]. apply (Hok (utf8 "vegan")); [by_decision|exact H2]. }
  destruct (match_alternative prev text (utf8 "veggie")) as [m3|] eqn:H3.
  { intros [= ->]. apply (Hok (utf8 "veggie")); [by_decision|exact H3]. }
  destruct (match_alternative prev text (utf8 "vegan-friendly")) as [m4|] eqn:H4.
  { exfalso. apply match_alternative_Some in H4.
    destruct (shadowed_by_prefix prev text (utf8 "vega") (utf8 "friendly") m4 H4)
      as [? Hsome].
    change (utf8 "vega" ++ [110]) with (utf8 "vegan") in Hsome. congruence. }
  destruct (match_alternative prev text (utf8 "vegetarian-friendly"))
    as [m5|] eqn:H5.
  { exfalso. apply match_alternative_Some in H5.
    destruct (shadowed_by_prefix prev text (utf8 "vegetaria") (utf8 "friendly") m5 H5)
      as [? Hsome].
    change (utf8 "vegetaria" ++ [110]) with (utf8 "vegetarian") in Hsome.
    congruence. }
  destruct (match_alternative prev text (utf8 "plant-based")) as [m6|] eqn:H6.
  { intros [= ->]. apply (Hok (utf8 "plant-based")); [by_decision|exact H6]. }
  destruct (match_alternative prev text (utf8 "plant based")) as [m7|] eqn:H7.
  { intros [= ->]. apply (Hok (utf8 "plant based")); [by_decision|exact H7]. }
  destruct (match_alternative prev text (utf8 "pure veg")) as [m8|] eqn:H8.
  { intros [= ->]. apply (Hok (utf8 "pure veg")); [by_decision|exact H8]. }
  destruct (match_alternative prev text (utf8 "pure-veg")) as [m9|] eqn:H9.
  { intros [= ->]. apply (Hok (utf8 "pure-veg")); [by_decision|exact H9]. }
  destruct (match_alternative prev text (utf8 "veg")) as [m10|] eqn:H10; [|done].
  intros [= ->]. apply (Hok (utf8 "veg")); [by_decision|exact H10].
Qed.

Lemma lower_cons c m : lower (c :: m) = lower_char c ++ lower m.
Proof. done. Qed.

Lemma lower_length m t : lower m = t → 0x307 ∉ t → length m = length t.
Proof.
  revert t. induction m as [|c m IH]; intros t <- Hdot; [done|].
  rewrite lower_cons in *. unfold lower_char in *.
  destruct (N.eqb_spec c 0x130).
  - exfalso. apply Hdot. simpl. right. by left.
  - simpl in *. f_equal. apply IH; [done|]. intros ?. apply Hdot. by right.
Qed.

Lemma findall_reportable v m :
  m ∈ findall v → ∃ k, k ∈ reportable_keywords ∧ length m = length k.
Proof.
  intros (prev & text & Hm)%findall_from_elem.
  destruct (eng_pattern_at_reportable _ _ _ Hm) as (k & Hk & Hlit).
  exists k. split; [done|].
  apply match_literal_prefix in Hlit as (_ & _ & Hall).
  symmetry. by eapply Forall2_length.
Qed.

Lemma friendly_not_a_token v t :
  t ∈ lower <$> findall v →
  t ≠ utf8 "vegan-friendly" ∧ t ≠ utf8 "vegetarian-friendly".
Proof.
  intros (m & -> & Hm)%list_elem_of_fmap.
  destruct (findall_reportable v m Hm) as (k & Hk & Hlen).
  assert (Forall (fun k : pystr => length k ≠ 14%nat ∧ length k ≠ 19%nat)
            reportable_keywords) as Hall by by_decision.
  rewrite Forall_forall in Hall. destruct (Hall k Hk) as [H14 H19].
  split; intros Ht.
  - apply lower_length in Ht; [|by_decision].
    apply H14. rewrite <- Hlen, Ht. reflexivity.
  - apply lower_length in Ht; [|by_decision].
    apply H19. rewrite <- Hlen, Ht. reflexivity.
Qed.

(** X2: the alternatives [vegan-friendly] and [vegetarian-friendly] of
    [eng_pattern] are never reported: where one of them stands in a
    text, the alternative [vegan] or [vegetarian], listed before it,
    matches up to the hyphen.  Neither is ever a token of a cell nor an
    entry of the English keywords of a row. *)
Theorem friendly_keywords_never_reported
    (df : DataFrame) (row : gmap string val) :
  (∀ v t, t ∈ lower <$> findall v →
          t ≠ utf8 "vegan-friendly" ∧ t ≠ utf8 "vegetarian-friendly")
  ∧ (utf8 "vegan-friendly" ∉ (match_row df row).1)
  ∧ (utf8 "vegetarian-friendly" ∉ (match_row df row).1).
Proof.
  assert (∀ t, t ∈ (match_row df row).1 →
            t ≠ utf8 "vegan-friendly" ∧ t ≠ utf8 "vegetarian-friendly") as Hrow.
  { intros t. rewrite match_row_collect. simpl. rewrite collect_elem, elem_of_nil.
    intros [[]|(v & Ht & _)%list_elem_of_bind].
    by apply (friendly_not_a_token v). }
  split_and!.
  - apply friendly_not_a_token.
  - intros Hin. by destruct (Hrow _ Hin).
  - intros Hin. by destruct (Hrow _ Hin).
Qed.

(** ** The keyword lists stay within the vocabularies *)

Lemma select_rows_records df m :
  ∃ outs, select_rows df m = Ok outs
          ∧ Forall (fun out =>
                      ∃ row, row ∈ rows df
                             ∧ Keyword_EN out = (match_row df row).1
                             ∧ Keyword_TC out = (match_row df row).2) outs.
Proof.
  destruct (select_rows_filter df m) as (outs & Hsel & Hall).
  exists outs. split; [done|].
  apply (Forall2_Forall_r _ _ _ _ Hall).
  apply Forall_forall. intros row [_ Hrow]%list_elem_of_filter out Hout.
  destruct (record_for_ok df row) as (out' & Hout' & Hen & Hcn).
  assert (out' = out) as <- by congruence. by exists row.
Qed.

Lemma bounded_by_vocabulary (l vocabulary : list pystr) :
  NoDup l → (∀ x, x ∈ l → x ∈ vocabulary) →
  (length l ≤ length vocabulary)%nat.
Proof. intros Hnd Hsub. by apply submseteq_length, NoDup_submseteq. Qed.

Lemma match_row_NoDup df row :
  NoDup (match_row df row).1 ∧ NoDup (match_row df row).2.
Proof.
  rewrite match_row_collect. split; apply collect_NoDup, NoDup_nil_2.
Qed.

Lemma chinese_match_in_vocabulary df row kw :
  kw ∈ (match_row df row).2 → kw ∈ cn_keywords.
Proof.
  rewrite match_row_collect. simpl. rewrite collect_elem, elem_of_nil.
  intros [[]|(v & Hkw & _)%list_elem_of_bind].
  by apply list_elem_of_filter in Hkw as [_ ?].
Qed.

(** X3: [Keyword_TC] holds keywords of the Chinese vocabulary only, so at
    most ten of them, for every row and in every record of the
    output. *)
Theorem chinese_keywords_within_vocabulary
    (df : DataFrame) (min_matches : Z) :
  (∀ row kw, kw ∈ (match_row df row).2 → kw ∈ cn_keywords)
  ∧ (∀ row, (length (match_row df row).2 ≤ 10)%nat)
  ∧ ∃ outs,
      select_rows df min_matches = Ok outs
      ∧ Forall (fun out =>
                  (∀ kw, kw ∈ Keyword_TC out → kw ∈ cn_keywords)
                  ∧ (length (Keyword_TC out) ≤ 10)%nat) outs.
Proof.
  assert (∀ row, (length (match_row df row).2 ≤ 10)%nat) as Hlen.
  { intros row.
    apply (bounded_by_vocabulary _ cn_keywords);
      [apply match_row_NoDup | apply chinese_match_in_vocabulary]. }
  split_and!; [apply chinese_match_in_vocabulary | done |].
  destruct (select_rows_records df min_matches) as (outs & Hsel & Hall).
  exists outs. split; [done|].
  eapply Forall_impl; [exact Hall|]. simpl.
  intros out (row & _ & _ & ->). split; [apply chinese_match_in_vocabulary|done].
Qed.

Lemma findall_from_elem_suffix skip prev text m :
  m ∈ findall_from skip prev text →
  ∃ prev' pre text', text = pre ++ text' ∧ eng_pattern_at prev' text' = Some m.
Proof.
  revert skip prev. induction text as [|c text IH]; intros skip prev; simpl.
  - by intros ?%elem_of_nil.
  - assert (∀ skip' prev', m ∈ findall_from skip' prev' text →
              ∃ prev'' pre text', c :: text = pre ++ text'
                                  ∧ eng_pattern_at prev'' text' = Some m) as Hrest.
    { intros skip' prev' (prev'' & pre & text' & -> & Hm)%IH.
      by exists prev'', (c :: pre), text'. }
    destruct skip as [|n]; [|apply Hrest].
    destruct (eng_pattern_at prev (c :: text)) as [m'|] eqn:Hm; [|apply Hrest].
    intros [->|Hin]%elem_of_cons; [by exists prev, [], (c :: text)|].
    by eapply Hrest.
Qed.

Lemma findall_chars v m c : m ∈ findall v → c ∈ m → c ∈ v.
Proof.
  intros (prev & pre & text & -> & Hm)%findall_from_elem_suffix Hc.
  destruct (eng_pattern_at_Some _ _ _ Hm) as (k & _ & Hlit).
  apply match_literal_prefix in Hlit as (rest & -> & _).
  rewrite !elem_of_app. right. left. exact Hc.
Qed.

Lemma ignorecase_eq_lower_char p c :
  p < 128 → ascii_lower p = p → p ≠ 0x6B → ¬ folds_to_ascii c →
  ignorecase_eq p c = true → lower_char c = [p].
Proof.
  unfold folds_to_ascii. intros Hp Hlow Hk Hc.
  unfold ignorecase_eq, sre_lower, lower_char. rewrite Hlow.
  destruct (N.eqb_spec c 0x130); [exfalso; apply Hc; by left|].
  destruct (N.eqb_spec c 0x131); [exfalso; apply Hc; by right; left|].
  destruct (N.eqb_spec c 0x17F); [exfalso; apply Hc; by right; right|].
  rewrite !andb_false_r, !orb_false_r.
  destruct (N.eqb_spec c 0x212A).
  - rewrite N.eqb_eq. lia.
  - rewrite N.eqb_eq. by intros ->.
Qed.

Lemma lower_of_match k m :
  Forall (fun p => p < 128 ∧ ascii_lower p = p ∧ p ≠ 0x6B) k →
  (∀ c, c ∈ m → ¬ folds_to_ascii c) →
  Forall2 (fun p c => ignorecase_eq p c = true) k m →
  lower m = k.
Proof.
  intros Hk Hm Hall. induction Hall as [|p c k m Hpc Hall IH]; [done|].
  apply Forall_cons in Hk as [(? & ? & ?) Hk].
  rewrite lower_cons, (ignorecase_eq_lower_char p c); [|done..| |done].
  - simpl. f_equal. apply IH; [done|]. intros c' Hc'. apply Hm. by right.
  - apply Hm. by left.
Qed.

Lemma token_is_keyword v t :
  (∀ c, c ∈ v → ¬ folds_to_ascii c) →
  t ∈ lower <$> findall v → t ∈ reportable_keywords.
Proof.
  intros Hv (m & -> & Hm)%list_elem_of_fmap.
  pose proof Hm as (prev & text & Hat)%findall_from_elem.
  destruct (eng_pattern_at_reportable _ _ _ Hat) as (k & Hk & Hlit).
  apply match_literal_prefix in Hlit as (_ & _ & Hall).
  assert (Forall (Forall (fun p => p < 128 ∧ ascii_lower p = p ∧ p ≠ 0x6B))
            reportable_keywords) as Hkeys by by_decision.
  rewrite Forall_forall in Hkeys.
  rewrite (lower_of_match k m); [done|by apply Hkeys| |done].
  intros c Hc. apply Hv. by apply (findall_chars v m).
Qed.

(** X4: when no scanned cell of a row holds one of the letters U+0130,
    U+0131 and U+017F, every entry of the English keywords of the row is
    a keyword of the vocabulary as it is listed there, in lower case,
    and there are at most eight of them. *)
Theorem english_keywords_within_vocabulary
    (df : DataFrame) (row : gmap string val) :
  (∀ v c, v ∈ scanned_text df row → c ∈ v → ¬ folds_to_ascii c) →
  (∀ t, t ∈ (match_row df row).1 → t ∈ reportable_keywords ∧ t ∈ eng_keywords)
  ∧ (length (match_row df row).1 ≤ 8)%nat.
Proof.
  intros Hrow.
  assert (∀ t, t ∈ (match_row df row).1 → t ∈ reportable_keywords) as Hin.
  { intros t. rewrite match_row_collect. simpl. rewrite collect_elem, elem_of_nil.
    intros [[]|(v & Ht & Hv)%list_elem_of_bind].
    apply (token_is_keyword v); [|done]. intros c. by apply Hrow. }
  split.
  - intros t Ht. split; [by apply Hin|].
    assert (Forall (fun k => k ∈ eng_keywords) reportable_keywords) as Hall
      by by_decision.
    rewrite Forall_forall in Hall. by apply Hall, Hin.
  - by apply (bounded_by_vocabulary _ reportable_keywords);
      [apply match_row_NoDup|].
Qed.

(** ** Letter case *)

Lemma ascii_lower_cases c :
  (65 ≤ c ≤ 90 ∧ ascii_lower c = c + 32) ∨ (¬ 65 ≤ c ≤ 90 ∧ ascii_lower c = c).
Proof.
  unfold ascii_lower, in_range.
  destruct (N.leb_spec 65 c), (N.leb_spec c 90); simpl; [left|right..]; lia.
Qed.

Lemma ascii_lower_idem c : ascii_lower (ascii_lower c) = ascii_lower c.
Proof.
  destruct (ascii_lower_cases c) as [[? ->]|[? ->]];
    destruct (ascii_lower_cases (c + 32)) as [[? ?]|[? ?]];
    destruct (ascii_lower_cases c) as [[? ?]|[? ?]]; lia.
Qed.

Lemma is_word_lower c : is_word (ascii_lower c) = is_word c.
Proof.
  destruct (ascii_lower_cases c) as [[Hc ->]|[_ ->]]; [|done].
  unfold is_word, ascii_alnum, in_range.
  repeat match goal with
         | |- context [?a <=? ?b] => destruct (N.leb_spec a b); try lia
         | |- context [?a <? ?b] => destruct (N.ltb_spec a b); try lia
         | |- context [?a =? ?b] => destruct (N.eqb_spec a b); try lia
         end; done.
Qed.

Lemma ignorecase_eq_lower p c :
  ignorecase_eq p (ascii_lower c) = ignorecase_eq p c.
Proof.
  destruct (ascii_lower_cases c) as [[Hc Hlow]|[_ ->]]; [|done].
  unfold ignorecase_eq, sre_lower. rewrite ascii_lower_idem, Hlow.
  repeat match goal with
         | |- context [?a =? ?b] =>
             lazymatch a with
             | c + 32 => destruct (N.eqb_spec a b); try lia
             | c => destruct (N.eqb_spec a b); try lia
             end
         end; try done; by rewrite ?andb_false_r.
Qed.

Lemma match_literal_lower k (text : pystr) :
  match_literal k (lower_ascii text) = lower_ascii <$> match_literal k text.
Proof.
  revert text. induction k as [|p k IH]; intros [|c text]; simpl; try done.
  rewrite ignorecase_eq_lower. destruct (ignorecase_eq p c); [|done].
  fold (lower_ascii text). rewrite IH. by destruct (match_literal k text).
Qed.

Lemma word_at_lower (o : option N) : word_at (ascii_lower <$> o) = word_at o.
Proof. destruct o; [apply is_word_lower|done]. Qed.

Lemma char_before_end_lower (prev : option N) (m : pystr) :
  char_before_end (ascii_lower <$> prev) (lower_ascii m)
  = ascii_lower <$> char_before_end prev m.
Proof.
  unfold char_before_end, lower_ascii. rewrite fmap_last. by destruct (last m).
Qed.

Lemma head_lower (l : pystr) : head (lower_ascii l) = ascii_lower <$> head l.
Proof. by destruct l. Qed.

Lemma drop_lower n (l : pystr) : drop n (lower_ascii l) = lower_ascii (drop n l).
Proof. unfold lower_ascii. by rewrite fmap_drop. Qed.

Lemma length_lower (l : pystr) : length (lower_ascii l) = length l.
Proof. apply length_fmap. Qed.

Lemma match_alternative_lower (prev : option N) (text : pystr) k :
  match_alternative (ascii_lower <$> prev) (lower_ascii text) k
  = lower_ascii <$> match_alternative prev text k.
Proof.
  unfold match_alternative. rewrite match_literal_lower.
  destruct (match_literal k text) as [m|]; [|done]. simpl.
  unfold at_boundary.
  rewrite char_before_end_lower, length_lower, drop_lower, head_lower.
  rewrite !word_at_lower. by destruct (xorb _ _).
Qed.

Lemma first_alternative_lower (prev : option N) (text : pystr) ks :
  first_alternative (ascii_lower <$> prev) (lower_ascii text) ks
  = lower_ascii <$> first_alternative prev text ks.
Proof.
  induction ks as [|k ks IH]; [done|]. simpl.
  rewrite match_alternative_lower.
  by destruct (match_alternative prev text k).
Qed.

Lemma eng_pattern_at_lower (prev : option N) (text : pystr) :
  eng_pattern_at (ascii_lower <$> prev) (lower_ascii text)
  = lower_ascii <$> eng_pattern_at prev text.
Proof.
  unfold eng_pattern_at, at_boundary.
  rewrite head_lower, !word_at_lower, first_alternative_lower.
  by destruct (xorb _ _).
Qed.

Lemma findall_from_lower skip (prev : option N) (text : pystr) :
  findall_from skip (ascii_lower <$> prev) (lower_ascii text)
  = lower_ascii <$> findall_from skip prev text.
Proof.
  revert skip prev. induction text as [|c text IH]; intros skip prev; [done|].
  change (lower_ascii (c :: text)) with (ascii_lower c :: lower_ascii text).
  cbn [findall_from].
  change (ascii_lower c :: lower_ascii text) with (lower_ascii (c :: text)).
  destruct skip as [|n]; [|exact (IH n (Some c))].
  rewrite eng_pattern_at_lower.
  destruct (eng_pattern_at prev (c :: text)) as [m|].
  - change (lower_ascii <$> Some m) with (Some (lower_ascii m)).
    cbv iota beta. rewrite length_lower, fmap_cons. f_equal.
    exact (IH _ (Some c)).
  - exact (IH 0%nat (Some c)).
Qed.

Lemma lower_of_lower (m : pystr) : lower (lower_ascii m) = lower m.
Proof.
  induction m as [|c m IH]; [done|].
  change (lower_ascii (c :: m)) with (ascii_lower c :: lower_ascii m).
  rewrite !lower_cons, IH. f_equal.
  unfold lower_char. rewrite ascii_lower_idem.
  destruct (ascii_lower_cases c) as [[? ->]|[_ ->]]; [|done].
  destruct (N.eqb_spec (c + 32) 0x130), (N.eqb_spec c 0x130); try done; lia.
Qed.

Lemma tokens_of_lower (v : pystr) :
  lower <$> findall (lower_ascii v) = lower <$> findall v.
Proof.
  unfold findall.
  change (@None N) with (ascii_lower <$> @None N).
  rewrite findall_from_lower, <- list_fmap_compose.
  apply list_fmap_ext. intros ? m _. apply lower_of_lower.
Qed.

(** X5: the English tokens of a text do not depend on the case of its
    ASCII letters: two texts that agree once their capital letters are
    put in lower case give the same tokens, in the same order. *)
Theorem english_tokens_ignore_case (v : pystr) :
  lower <$> findall (lower_ascii v) = lower <$> findall v
  ∧ ∀ w, lower_ascii v = lower_ascii w →
         lower <$> findall v = lower <$> findall w.
Proof.
  split; [apply tokens_of_lower|].
  intros w Hvw. by rewrite <- (tokens_of_lower v), <- (tokens_of_lower w), Hvw.
Qed.

(** ** More columns, more keywords *)

Lemma column_texts_subseteq row (cols cols' : list string) :
  cols ⊆ cols' → omap (column_text row) cols ⊆ omap (column_text row) cols'.
Proof.
  intros Hsub v (c & Hc & Hv)%list_elem_of_omap.
  apply list_elem_of_omap. exists c. split; [by apply Hsub|done].
Qed.

Lemma bind_subseteq (f : pystr → list pystr) (xs ys : list pystr) :
  xs ⊆ ys → xs ≫= f ⊆ ys ≫= f.
Proof.
  intros Hsub t (v & Ht & Hv)%list_elem_of_bind.
  apply list_elem_of_bind. exists v. split; [done|by apply Hsub].
Qed.

Lemma collect_subseteq (xs ys : list pystr) :
  xs ⊆ ys →
  foldl add_new [] xs ⊆ foldl add_new [] ys
  ∧ (length (foldl add_new [] xs) ≤ length (foldl add_new [] ys))%nat.
Proof.
  intros Hsub.
  assert (foldl add_new [] xs ⊆ foldl add_new [] ys) as Hincl.
  { intros t. rewrite !collect_elem. intros [Ht|Ht]; [by left|].
    right. by apply Hsub. }
  split; [done|].
  apply submseteq_length, NoDup_submseteq; [|done].
  apply collect_NoDup, NoDup_nil_2.
Qed.

Lemma scan_columns_collect_nil row cols :
  scan_columns row cols =
  (foldl add_new [] (omap (column_text row) cols ≫= (fun v => lower <$> findall v)),
   foldl add_new []
     (omap (column_text row) cols
        ≫= (fun v => filter (fun kw => contains kw v = true) cn_keywords))).
Proof. apply scan_columns_collect. Qed.

(** X6: the keywords found over a list of columns stay, in their places,
    when further columns are scanned after them; and over any list of
    columns that has these columns among its own, in any order, the same
    keywords are found again and the number of matches is not smaller. *)
Theorem keywords_grow_with_columns (row : gmap string val) (cols : list string) :
  (∀ more,
     (scan_columns row cols).1 `prefix_of` (scan_columns row (cols ++ more)).1
     ∧ (scan_columns row cols).2 `prefix_of` (scan_columns row (cols ++ more)).2)
  ∧ (∀ cols', cols ⊆ cols' →
       (scan_columns row cols).1 ⊆ (scan_columns row cols').1
       ∧ (scan_columns row cols).2 ⊆ (scan_columns row cols').2
       ∧ (length (scan_columns row cols).1 + length (scan_columns row cols).2
          ≤ length (scan_columns row cols').1
            + length (scan_columns row cols').2)%nat)
  ∧ ∀ df, match_row df row = scan_columns row (search_columns df).
Proof.
  split_and!.
  - intros more. unfold scan_columns. rewrite foldl_app.
    destruct (foldl (scan_column row) ([], []) cols) as [en cn].
    rewrite scan_columns_collect. simpl. split; apply collect_prefix.
  - intros cols' Hsub. rewrite !scan_columns_collect_nil. simpl.
    pose proof (column_texts_subseteq row _ _ Hsub) as Htexts.
    destruct (collect_subseteq _ _
                (bind_subseteq (fun v => lower <$> findall v) _ _ Htexts))
      as [Hen Hlen].
    destruct (collect_subseteq _ _
                (bind_subseteq
                   (fun v => filter (fun kw => contains kw v = true) cn_keywords)
                   _ _ Htexts))
      as [Hcn Hlcn].
    split_and!; [done|done|lia].
  - done.
Qed.

(** ** Cells that are not scanned *)

Lemma scan_columns_agree (row1 row2 : gmap string val) cols acc :
  (∀ c, c ∈ cols → row1 !! c = row2 !! c) →
  foldl (scan_column row1) acc cols = foldl (scan_column row2) acc cols.
Proof.
  revert acc. induction cols as [|c cols IH]; intros acc Hagree; [done|].
  simpl.
  assert (scan_column row1 acc c = scan_column row2 acc c) as ->.
  { unfold scan_column, row_get. rewrite (Hagree c); [done|]. by left. }
  apply IH. intros c' Hc'. apply Hagree. by right.
Qed.

(** X7: the keywords of a row, and with them whether the row is kept,
    depend on the cells of the scanned columns only: two rows that agree
    on these columns have the same two keyword lists and pass the same
    thresholds, whatever their other cells hold. *)
Theorem keywords_depend_on_scanned_cells
    (df : DataFrame) (row1 row2 : gmap string val) :
  (∀ c, c ∈ search_columns df → row1 !! c = row2 !! c) →
  match_row df row1 = match_row df row2
  ∧ ∀ m, qualifies df m row1 ↔ qualifies df m row2.
Proof.
  intros Hagree.
  assert (match_row df row1 = match_row df row2) as Heq.
  { by apply scan_columns_agree. }
  split; [done|]. intros m. unfold qualifies, match_count. by rewrite Heq.
Qed.

(** ** A candidate listed twice *)

Lemma first_existing_first_occurrences df row seen candidates :
  (∀ c, c ∈ seen → ¬ populated df row c) →
  first_existing df row candidates
  = first_existing df row (first_occurrences seen candidates).
Proof.
  revert seen. induction candidates as [|c candidates IH]; intros seen Hseen;
    [done|].
  cbn [first_occurrences]. destruct (decide (c ∈ seen)) as [Hc|Hc].
  - rewrite first_existing_skip; [|by apply Hseen]. by apply IH.
  - assert (¬ populated df row c →
            first_existing df row candidates
            = first_existing df row (first_occurrences (c :: seen) candidates))
      as Hnext.
    { intros Hnot. apply IH. intros c' [->|Hc']%elem_of_cons; [done|].
      by apply Hseen. }
    cbn [first_existing]. destruct (decide (c ∈ columns df)) as [Hcol|Hcol].
    + destruct (row_get row c PyNone) as [v| |] eqn:Hget.
      * destruct (decide (strip v ≠ [])) as [Hv|Hv]; [done|].
        apply Hnext. intros (_ & v' & Hrow & Hblank).
        apply row_get_Str in Hget. rewrite Hrow in Hget.
        injection Hget as ->. apply Hblank, strip_blank.
        by destruct (decide (strip v = [])) as [?|Hne]; [|destruct (Hv Hne)].
      * apply Hnext. intros (_ & v' & Hrow & _).
        apply row_get_Str in Hrow. congruence.
      * apply Hnext. intros (_ & v' & Hrow & _).
        apply row_get_Str in Hrow. congruence.
    + apply Hnext. by intros [? _].
Qed.

(** X8: a candidate column that stands a second time in a candidate list
    never decides a field: the field is resolved as from the list with
    each column kept where it stands first.  [NSEARCH03_TC], listed
    twice for [Name_TC], is consulted as if listed once. *)
Theorem repeated_candidate_never_decides
    (df : DataFrame) (row : gmap string val) (candidates : list string) :
  first_existing df row candidates
  = first_existing df row (first_occurrences [] candidates)
  ∧ first_existing df row (col_map !!! "Name_TC"%string)
    = first_existing df row ["NSEARCH03_TC"; "NAME_TC"]%string.
Proof.
  assert (∀ l, first_existing df row l
               = first_existing df row (first_occurrences [] l)) as Hfirst.
  { intros l. apply first_existing_first_occurrences. by intros c ?%elem_of_nil. }
  split; [apply Hfirst|].
  by rewrite (Hfirst (col_map !!! "Name_TC"%string)).
Qed.

(** ** The coordinates of a record *)

Lemma isspace_to_ascii c : isspace c = true → to_ascii c ≤ 0x20.
Proof.
  intros Hsp. unfold to_ascii. destruct (N.ltb_spec c 127) as [Hlt|Hge].
  - unfold isspace, in_range in Hsp.
    rewrite !orb_true_iff, !andb_true_iff, !N.leb_le, !N.eqb_eq in Hsp. lia.
  - rewrite Hsp. lia.
Qed.

Lemma read_number_nil : read_number [] = None.
Proof. vm_compute. reflexivity. Qed.

Lemma read_number_control c (t : pystr) : c ≤ 0x20 → read_number (c :: t) = None.
Proof.
  intros Hc.
  assert (read_sign (c :: t) = (false, c :: t)) as Hsign.
  { unfold read_sign.
    destruct (N.eqb_spec c 0x2D); [lia|]. by destruct (N.eqb_spec c 0x2B); [lia|]. }
  assert (is_digit c = false) as Hdigit.
  { unfold is_digit, in_range. destruct (N.leb_spec 0x30 c); [lia|done]. }
  assert (∀ k : string, head (utf8 k) ≠ Some c → ascii_lower <$> c :: t ≠ utf8 k)
    as Hword.
  { intros k Hk Heq. apply Hk. rewrite <- Heq. simpl. f_equal.
    unfold ascii_lower, in_range. destruct (N.leb_spec 0x41 c); [lia|done]. }
  unfold read_number. rewrite Hsign. cbn [span_digits]. rewrite Hdigit.
  destruct (N.eqb_spec c 0x2E); [lia|]. simpl app.
  unfold read_inf_or_nan. rewrite Hsign.
  rewrite !bool_decide_eq_false_2; [done|apply Hword..];
    vm_compute; intros [= <-]; lia.
Qed.

Lemma float_of_blank (s : pystr) : blank s → float_of_str s = Raise ValueError.
Proof.
  intros Hblank.
  assert (∀ c, c ∈ to_ascii <$> s → c ≤ 0x20) as Hlow.
  { intros c (c' & -> & Hc')%list_elem_of_fmap.
    by apply isspace_to_ascii, Hblank. }
  unfold float_of_str. rewrite drop_underscores_id; [|done|].
  - destruct (strip_by_split c_isspace (to_ascii <$> s))
      as (l & r & Hsplit & _).
    fold (c_strip (to_ascii <$> s)) in Hsplit.
    destruct (c_strip (to_ascii <$> s)) as [|c t] eqn:Hstrip;
      [by rewrite read_number_nil|].
    rewrite read_number_control; [done|].
    apply Hlow. rewrite Hsplit, elem_of_app. right.
    change ((c :: t) ++ r) with (c :: t ++ r). apply elem_of_cons. by left.
  - intros c Hc%Hlow. lia.
Qed.

Lemma to_float_or_none_no_number v : no_number v → to_float_or_none v = Ok None.
Proof.
  destruct v as [s| |]; [|done..]. simpl. intros Hblank.
  unfold to_float_or_none. simpl. rewrite (float_of_blank s Hblank). simpl.
  assert (strip (remove_char 0x2C s) = []) as ->.
  { apply strip_blank. intros c Hc. unfold remove_char in Hc.
    apply list_elem_of_filter in Hc. apply Hblank, Hc. }
  rewrite float_of_blank; [done|]. by intros c ?%elem_of_nil.
Qed.

Lemma first_coordinate_single df row c :
  first_coordinate df row [c]
  = if decide (c ∈ columns df) then to_float_or_none (row_get row c PyNone)
    else Ok None.
Proof. done. Qed.

(** X9: a record is built whatever the coordinate cells hold.  Its
    latitude is read from the column [LATITUDE] alone: it is [null] when
    the frame has no such column, and what [to_float_or_none] makes of
    the cell of the row otherwise, so [null] again for a cell that is
    missing, [NaN], empty or white space; the same for the longitude and
    [LONGITUDE]. *)
Theorem coordinates_of_record (df : DataFrame) (row : gmap string val) :
  ∃ out,
    record_for df row = Ok out
    ∧ (if decide ("LATITUDE"%string ∈ columns df)
       then to_float_or_none (row_get row "LATITUDE" PyNone) = Ok (Latitude out)
       else Latitude out = None)
    ∧ (if decide ("LONGITUDE"%string ∈ columns df)
       then to_float_or_none (row_get row "LONGITUDE" PyNone) = Ok (Longitude out)
       else Longitude out = None)
    ∧ (no_number (row_get row "LATITUDE" PyNone) → Latitude out = None)
    ∧ (no_number (row_get row "LONGITUDE" PyNone) → Longitude out = None).
Proof.
  unfold record_for, build_record.
  change (col_map !!! "Latitude"%string) with ["LATITUDE"%string].
  change (col_map !!! "Longitude"%string) with ["LONGITUDE"%string].
  rewrite !first_coordinate_single.
  pose proof (to_float_or_none_no_number (row_get row "LATITUDE" PyNone)) as Hlat.
  pose proof (to_float_or_none_no_number (row_get row "LONGITUDE" PyNone)) as Hlon.
  destruct (to_float_or_none_ok (row_get row "LATITUDE" PyNone)) as [lat Elat].
  destruct (to_float_or_none_ok (row_get row "LONGITUDE" PyNone)) as [lon Elon].
  rewrite Elat in Hlat. rewrite Elon in Hlon.
  destruct (decide ("LATITUDE"%string ∈ columns df)),
           (decide ("LONGITUDE"%string ∈ columns df));
    rewrite ?Elat, ?Elon; simpl; eexists; (split; [reflexivity|]); simpl;
    split_and!; try done;
    intros Hno; try (by injection (Hlat Hno)); by injection (Hlon Hno).
Qed.

(** ** Rows are handled one by one *)

Lemma for_in_app {S X} (body : S → X → result S) st (xs ys : list X) :
  for_in body st (xs ++ ys) = st' ← for_in body st xs; for_in body st' ys.
Proof.
  revert st. induction xs as [|x xs IH]; intros st; [done|].
  simpl. destruct (body st x) as [st'|e]; [apply IH|done].
Qed.

Lemma record_for_functional df (row : gmap string val) out out' :
  record_for df row = Ok out → record_for df row = Ok out' → out = out'.
Proof. congruence. Qed.

Lemma Forall2_functional {A B} (R : A → B → Prop) l o1 o2 :
  (∀ a b b', R a b → R a b' → b = b') →
  Forall2 R l o1 → Forall2 R l o2 → o1 = o2.
Proof.
  intros Hfun H1. revert o2.
  induction H1 as [|a b l o1 Hab _ IH]; intros o2 H2; inversion H2; subst;
    [done|].
  f_equal; [by eapply Hfun|by apply IH].
Qed.

Lemma select_rows_frame sch rws m :
  select_rows (frame sch rws) m = for_in (row_step (frame sch []) m) [] rws.
Proof. reflexivity. Qed.

(** X10: the records of a table are those of its rows taken one by one:
    for a table of two parts under the same columns, the output is the
    output of the first part followed by the output of the second, and
    the number of records is the sum.  No row changes what becomes of
    another. *)
Theorem select_rows_of_two_parts
    (sch : list (string * dtype)) (rws1 rws2 : list (gmap string val)) (m : Z) :
  ∃ outs1 outs2,
    select_rows (frame sch rws1) m = Ok outs1
    ∧ select_rows (frame sch rws2) m = Ok outs2
    ∧ select_rows (frame sch (rws1 ++ rws2)) m = Ok (outs1 ++ outs2).
Proof.
  rewrite !select_rows_frame, for_in_app.
  destruct (for_in_row_step (frame sch []) m rws1 []) as (outs1 & -> & _).
  destruct (for_in_row_step (frame sch []) m rws2 []) as (outs2 & -> & H2).
  destruct (for_in_row_step (frame sch []) m rws2 outs1) as (outs2' & E & H2').
  exists outs1, outs2. split_and!; [done..|].
  simpl in *. rewrite E. do 2 f_equal.
  apply (Forall2_functional _ _ _ _ (record_for_functional (frame sch [])) H2' H2).
Qed.

(** ** The files of a run *)




End Pipeline.

(** ** The theorems at the sample table *)

(** C7 on the sample table, thresholds 1 and 2. *)
Lemma output_shrinks_on_sample :
  (1 ≤ 2)%Z
  ∧ ∃ outs1 outs2,
      select_rows Sample.isalnum Sample.decimal Sample.df 1 = Ok outs1
      ∧ select_rows Sample.isalnum Sample.decimal Sample.df 2 = Ok outs2
      ∧ outs2 `sublist_of` outs1
      ∧ filter (qualifies Sample.isalnum Sample.df 2) (rows Sample.df)
          `sublist_of` filter (qualifies Sample.isalnum Sample.df 1) (rows Sample.df).
Proof.
  split; [lia|].
  apply (output_shrinks_as_min_matches_grows Sample.isalnum Sample.decimal Sample.df 1 2).
  lia.
Defined.

(** C10 on the sample table, with [--min_matches 0]. *)
Lemma zero_min_matches_on_sample :
  (min_matches (Sample.args 0) ≤ 0)%Z
  ∧ (∃ outs,
       select_rows Sample.isalnum Sample.decimal Sample.df
         (min_matches (Sample.args 0)) = Ok outs
       ∧ length outs = length (rows Sample.df)
       ∧ Forall2 (fun row out =>
                    record_for Sample.isalnum Sample.decimal Sample.df row = Ok out
                    ∧ (total_distinct_matches Sample.isalnum Sample.df row = 0%nat →
                       Keyword_EN out = [] ∧ Keyword_TC out = []))
                 (rows Sample.df) outs)
    ∧ (∀ fs content,
         fs !! Sample.realpath (input (Sample.args 0)) = Some content →
         Sample.read_csv content = Ok Sample.df →
         match Sample.write_error fs (output (Sample.args 0)) with
         | None =>
             ∃ fs', main Sample.isalnum Sample.decimal Sample.read_csv
                      Sample.json_dump Sample.realpath Sample.write_error
                      (Sample.args 0) fs =
                    Ok (fs', Report (length (rows Sample.df))
                               (length (rows Sample.df))
                               (output (Sample.args 0)))
         | Some e =>
             main Sample.isalnum Sample.decimal Sample.read_csv Sample.json_dump
               Sample.realpath Sample.write_error (Sample.args 0) fs = Raise e
         end).
Proof.
  split; [simpl; lia|].
  apply (nonpositive_min_matches_keeps_every_row
           Sample.isalnum Sample.decimal Sample.read_csv Sample.json_dump
           Sample.realpath Sample.write_error Sample.df (Sample.args 0)).
  simpl. lia.
Defined.

(** C8 on the sample files, with and without the output of an earlier
    run. *)
Lemma two_runs_on_sample :
  Sample.fs !! Sample.realpath "FEHD_RL_converted.csv"
  = Sample.fs_stale !! Sample.realpath "FEHD_RL_converted.csv"
  ∧ match filter_and_select Sample.isalnum Sample.decimal Sample.read_csv
            Sample.json_dump Sample.realpath Sample.write_error
            Sample.fs "FEHD_RL_converted.csv"
            "vegetarian_restaurants_selected.json" 1,
          filter_and_select Sample.isalnum Sample.decimal Sample.read_csv
            Sample.json_dump Sample.realpath Sample.write_error
            Sample.fs_stale "FEHD_RL_converted.csv"
            "vegetarian_restaurants_selected.json" 1 with
    | Ok (fs1', r1), Ok (fs2', r2) =>
        r1 = r2
        ∧ fs1' !! Sample.realpath "vegetarian_restaurants_selected.json"
          = fs2' !! Sample.realpath "vegetarian_restaurants_selected.json"
        ∧ (∃ content df matched,
             Sample.fs !! Sample.realpath "FEHD_RL_converted.csv" = Some content
             ∧ Sample.read_csv content = Ok df
             ∧ select_rows Sample.isalnum Sample.decimal df 1 = Ok matched
             ∧ Forall2 (fun row out =>
                          record_for Sample.isalnum Sample.decimal df row = Ok out)
                 (filter (qualifies Sample.isalnum df 1) (rows df)) matched
             ∧ fs1' !! Sample.realpath "vegetarian_restaurants_selected.json"
               = Some (Sample.json_dump matched))
        ∧ (Sample.realpath "FEHD_RL_converted.csv"
           ≠ Sample.realpath "vegetarian_restaurants_selected.json" →
           fs1' !! Sample.realpath "FEHD_RL_converted.csv"
           = Sample.fs !! Sample.realpath "FEHD_RL_converted.csv"
           ∧ match filter_and_select Sample.isalnum Sample.decimal
                     Sample.read_csv Sample.json_dump Sample.realpath
                     Sample.write_error fs1' "FEHD_RL_converted.csv"
                     "vegetarian_restaurants_selected.json" 1 with
             | Ok (fs1'', r1') => fs1'' = fs1' ∧ r1' = r1
             | Raise e =>
                 Sample.write_error fs1' "vegetarian_restaurants_selected.json"
                 = Some e
             end)
    | Raise e1, Raise e2 =>
        (e1 = e2
         ∧ (Sample.fs !! Sample.realpath "FEHD_RL_converted.csv" = None
            ∨ ∃ content,
                Sample.fs !! Sample.realpath "FEHD_RL_converted.csv" = Some content
                ∧ Sample.read_csv content = Raise e1))
        ∨ (Sample.write_error Sample.fs "vegetarian_restaurants_selected.json"
           = Some e1
           ∧ Sample.write_error Sample.fs_stale
               "vegetarian_restaurants_selected.json" = Some e2)
    | Ok _, Raise e2 =>
        Sample.write_error Sample.fs_stale "vegetarian_restaurants_selected.json"
        = Some e2
    | Raise e1, Ok _ =>
        Sample.write_error Sample.fs "vegetarian_restaurants_selected.json"
        = Some e1
    end.
Proof.
  split; [vm_compute; reflexivity|].
  apply (filter_and_select_deterministic
           Sample.isalnum Sample.decimal Sample.read_csv Sample.json_dump
           Sample.realpath Sample.write_error Sample.fs Sample.fs_stale).
  vm_compute. reflexivity.
Defined.

(** C5 on the sample row with a keyword in its name and one in its
    address. *)
Lemma keyword_sequences_on_sample :
  record_for Sample.isalnum Sample.decimal Sample.df Sample.green_on_vegan_road
  = Ok Sample.green_on_vegan_road_record
  ∧ (NoDup (Keyword_EN Sample.green_on_vegan_road_record)
     ∧ NoDup (Keyword_TC Sample.green_on_vegan_road_record)
     ∧ (∀ t, t ∈ Keyword_EN Sample.green_on_vegan_road_record
             ↔ t ∈ english_tokens Sample.isalnum Sample.df Sample.green_on_vegan_road)
     ∧ (∀ kw, kw ∈ Keyword_TC Sample.green_on_vegan_road_record
              ↔ kw ∈ chinese_hits Sample.df Sample.green_on_vegan_road)
     ∧ first_seen_order
         (english_tokens Sample.isalnum Sample.df Sample.green_on_vegan_road)
         (Keyword_EN Sample.green_on_vegan_road_record)
     ∧ first_seen_order (chinese_hits Sample.df Sample.green_on_vegan_road)
         (Keyword_TC Sample.green_on_vegan_road_record)).
Proof.
  split; [vm_compute; reflexivity|].
  apply (keyword_sequences_distinct_first_seen
           Sample.isalnum Sample.decimal Sample.df Sample.green_on_vegan_road).
  vm_compute. reflexivity.
Defined.

(** C9 on the sample row with a Chinese name. *)
Lemma chinese_keywords_on_sample :
  ("NSEARCH03_TC"%string ∈ search_columns Sample.df
   ∧ row_get Sample.kung_tak_lam "NSEARCH03_TC" (Str []) = Str (utf8 "功德林素食館")
   ∧ occurs_in (utf8 "素食館") (utf8 "功德林素食館"))
  ∧ (utf8 "素食" ∈ (match_row Sample.isalnum Sample.df Sample.kung_tak_lam).2
     ∧ utf8 "素食館" ∈ (match_row Sample.isalnum Sample.df Sample.kung_tak_lam).2
     ∧ (2 ≤ length (match_row Sample.isalnum Sample.df Sample.kung_tak_lam).2)%nat
     ∧ ∀ matched m, (m ≤ 2)%Z →
         ∃ out, row_step Sample.isalnum Sample.decimal Sample.df m matched
                  Sample.kung_tak_lam = Ok (matched ++ [out])
                ∧ utf8 "素食" ∈ Keyword_TC out ∧ utf8 "素食館" ∈ Keyword_TC out).
Proof.
  assert ("NSEARCH03_TC"%string ∈ search_columns Sample.df) as Hc.
  { by_decision. }
  assert (row_get Sample.kung_tak_lam "NSEARCH03_TC" (Str [])
          = Str (utf8 "功德林素食館")) as Hv.
  { vm_compute. reflexivity. }
  assert (occurs_in (utf8 "素食館") (utf8 "功德林素食館")) as Hocc.
  { exists (utf8 "功德林"), []. vm_compute. reflexivity. }
  split; [done|].
  exact (chinese_keyword_and_its_prefix_both_count
           Sample.isalnum Sample.decimal Sample.df Sample.kung_tak_lam
           "NSEARCH03_TC" (utf8 "功德林素食館") Hc Hv Hocc).
Defined.

(** C6, as the program has it, on the sample row of Scenario A. *)
Lemma scenario_a_on_sample :
  ("NSEARCH03_EN"%string ∈ col_map !!! "Name_EN"%string
   ∧ "NSEARCH03_EN"%string ∈ columns Sample.df
   ∧ Sample.green !! "NSEARCH03_EN"%string
     = Some (Str (utf8 "Green Vegetarian Restaurant")))
  ∧ (lower <$> findall Sample.isalnum (utf8 "Green Vegetarian Restaurant")
     = [utf8 "vegetarian"]
     ∧ "NSEARCH03_EN"%string ∈ search_columns Sample.df
     ∧ utf8 "vegetarian" ∈ (match_row Sample.isalnum Sample.df Sample.green).1
     ∧ (∀ matched, ∃ out,
          row_step Sample.isalnum Sample.decimal Sample.df 1 matched Sample.green
          = Ok (matched ++ [out])
          ∧ utf8 "vegetarian" ∈ Keyword_EN out)
     ∧ ((∀ t, t ∈ english_tokens Sample.isalnum Sample.df Sample.green →
              t = utf8 "vegetarian") →
        (match_row Sample.isalnum Sample.df Sample.green).1 = [utf8 "vegetarian"])).
Proof.
  assert ("NSEARCH03_EN"%string ∈ col_map !!! "Name_EN"%string) as Hname.
  { by_decision. }
  assert ("NSEARCH03_EN"%string ∈ columns Sample.df) as Hcol.
  { by_decision. }
  assert (Sample.green !! "NSEARCH03_EN"%string
          = Some (Str (utf8 "Green Vegetarian Restaurant"))) as Hrow.
  { vm_compute. reflexivity. }
  split; [done|].
  exact (scenario_a_vegetarian_name
           Sample.isalnum Sample.decimal Sample.df Sample.green "NSEARCH03_EN"
           Hname Hcol Hrow).
Defined.

(** X4 on the sample row with a keyword in its name and one in its
    address; its texts are ASCII. *)
Lemma english_keywords_on_sample :
  (∀ v c, v ∈ scanned_text Sample.df Sample.green_on_vegan_road → c ∈ v →
          ¬ folds_to_ascii c)
  ∧ ((∀ t, t ∈ (match_row Sample.isalnum Sample.df Sample.green_on_vegan_road).1 →
           t ∈ reportable_keywords ∧ t ∈ eng_keywords)
     ∧ (length (match_row Sample.isalnum Sample.df Sample.green_on_vegan_road).1
        ≤ 8)%nat).
Proof.
  assert (∀ v c, v ∈ scanned_text Sample.df Sample.green_on_vegan_road → c ∈ v →
                 ¬ folds_to_ascii c) as Hrow.
  { assert (Forall (Forall (fun c => c ≠ 0x130 ∧ c ≠ 0x131 ∧ c ≠ 0x17F))
                   (scanned_text Sample.df Sample.green_on_vegan_road)) as Hall
      by by_decision.
    intros v c Hv Hc. rewrite Forall_forall in Hall. specialize (Hall v Hv).
    rewrite Forall_forall in Hall. destruct (Hall c Hc) as (? & ? & ?).
    by intros [?|[?|?]]. }
  split; [exact Hrow|].
  exact (english_keywords_within_vocabulary
           Sample.isalnum Sample.df Sample.green_on_vegan_road Hrow).
Defined.

(** X7 on the sample table: the district is no scanned column, and a
    keyword put there changes nothing. *)
Lemma district_is_not_scanned_on_sample :
  (∀ c, c ∈ search_columns Sample.df →
        Sample.noodles !! c
        = (<["SEARCH01_EN"%string := Str (utf8 "Vegan Bay")]> Sample.noodles) !! c)
  ∧ (match_row Sample.isalnum Sample.df Sample.noodles
     = match_row Sample.isalnum Sample.df
         (<["SEARCH01_EN"%string := Str (utf8 "Vegan Bay")]> Sample.noodles)
     ∧ ∀ m, qualifies Sample.isalnum Sample.df m Sample.noodles
            ↔ qualifies Sample.isalnum Sample.df m
                (<["SEARCH01_EN"%string := Str (utf8 "Vegan Bay")]> Sample.noodles)).
Proof.
  assert (∀ c, c ∈ search_columns Sample.df →
               Sample.noodles !! c
               = (<["SEARCH01_EN"%string := Str (utf8 "Vegan Bay")]> Sample.noodles)
                   !! c) as Hagree.
  { assert (Forall (fun c => Sample.noodles !! c
                             = (<["SEARCH01_EN"%string := Str (utf8 "Vegan Bay")]>
                                  Sample.noodles) !! c)
                   (search_columns Sample.df)) as Hall by by_decision.
    intros c Hc. rewrite Forall_forall in Hall. by apply Hall. }
  split; [exact Hagree|].
  exact (keywords_depend_on_scanned_cells
           Sample.isalnum Sample.df Sample.noodles
           (<["SEARCH01_EN"%string := Str (utf8 "Vegan Bay")]> Sample.noodles)
           Hagree).
Defined.

(** ** Rows on which the specification and the program part *)

(** C2, against the claim: the name of this row is missing, a cell that
    is no string in a searchable column, and still its address is
    scanned and the row is in the output. *)
Lemma nameless_row_is_scanned_and_kept :
  "NSEARCH03_EN"%string ∈ search_columns (Sample.frame_of [Sample.nameless])
  ∧ row_get Sample.nameless "NSEARCH03_EN" (Str []) = NaN
  ∧ is_str (row_get Sample.nameless "NSEARCH03_EN" (Str [])) = false
  ∧ match_row Sample.isalnum (Sample.frame_of [Sample.nameless]) Sample.nameless
    = ([utf8 "vegan"], [])
  ∧ ∃ out,
      select_rows Sample.isalnum Sample.decimal
        (Sample.frame_of [Sample.nameless]) 1 = Ok [out]
      ∧ Address_EN out = Str (utf8 "G/F, 3 Vegan Lane")
      ∧ Keyword_EN out = [utf8 "vegan"].
Proof.
  split_and!.
  - by_decision.
  - vm_compute. reflexivity.
  - vm_compute. reflexivity.
  - vm_compute. reflexivity.
  - eexists. split_and!; vm_compute; reflexivity.
Qed.

(** C6, against the claim: the name of this row is "Green Vegetarian
    Restaurant", and its [Keyword_EN] also holds the keyword of its
    address. *)
Lemma green_on_vegan_road_has_two_keywords :
  Sample.green_on_vegan_road !! "NSEARCH03_EN"%string
  = Some (Str (utf8 "Green Vegetarian Restaurant"))
  ∧ ∃ out,
      select_rows Sample.isalnum Sample.decimal
        (Sample.frame_of [Sample.green_on_vegan_road]) 1 = Ok [out]
      ∧ Name_EN out = Str (utf8 "Green Vegetarian Restaurant")
      ∧ Keyword_EN out = [utf8 "vegetarian"; utf8 "vegan"]
      ∧ Keyword_EN out ≠ [utf8 "vegetarian"].
Proof.
  split; [vm_compute; reflexivity|].
  eexists. split_and!; [vm_compute; reflexivity..|].
  vm_compute. discriminate.
Qed.

(** ** The scenarios of the specification, evaluated *)

Example utf8_ascii : utf8 "veg" = [0x76; 0x65; 0x67].
Proof. reflexivity. Qed.

Example utf8_cjk : utf8 "素食館" = [0x7D20; 0x98DF; 0x9928].
Proof. reflexivity. Qed.

Example strip_address : strip (utf8 "  12 Main St	 ") = utf8 "12 Main St".
Proof. reflexivity. Qed.

(** The alternatives overlap: the one listed first wins where it fits,
    [\b] decides otherwise. *)
Example findall_overlaps :
  lower <$> findall Sample.isalnum
              (utf8 "VEG, Vegan-Friendly & pure veg; vegetables, veggies")
  = utf8 <$> ["veg"; "vegan"; "pure veg"]%string.
Proof. vm_compute. reflexivity. Qed.

(** An ideograph is a word character, so no [\b] separates it from a
    keyword. *)
Example findall_after_ideograph :
  findall Sample.isalnum (utf8 "素veg") = []
  ∧ findall Sample.isalnum (utf8 "素 veg") = [utf8 "veg"].
Proof. split; vm_compute; reflexivity. Qed.

(** Scenario A. *)
Example scenario_a_record :
  ∃ out, select_rows Sample.isalnum Sample.decimal (Sample.frame_of [Sample.green]) 1
         = Ok [out]
         ∧ Keyword_EN out = [utf8 "vegetarian"] ∧ Keyword_TC out = []
         ∧ Address_EN out = Str (utf8 "G/F, 1 Main Street")
         ∧ Latitude out = Some (Finite false 11151 1).
Proof. eexists. split_and!; vm_compute; reflexivity. Qed.

(** Scenario B. *)
Example scenario_b_record :
  ∃ out, select_rows Sample.isalnum Sample.decimal
           (Sample.frame_of [Sample.vegan_house]) 2 = Ok [out]
         ∧ Keyword_EN out = [utf8 "vegan"] ∧ Keyword_TC out = [utf8 "素食"].
Proof. eexists. split_and!; vm_compute; reflexivity. Qed.

(** Scenario C. *)
Example scenario_c_excluded :
  select_rows Sample.isalnum Sample.decimal (Sample.frame_of [Sample.noodles]) 1
  = Ok [].
Proof. vm_compute. reflexivity. Qed.

(** Scenario D, and a few more coordinates. *)
Example scenario_d_coordinates :
  to_float_or_none Sample.decimal <$>
    (Str ∘ utf8 <$> ["22,302"; "N/A"; " 114.177 "; "-1_000.5e-3"; "1,2,3"; "";
                     "1e"; "+Infinity"; "２２"]%string) ++ [NaN; PyNone]
  = Ok <$> [Some (Finite false 11151 1); None;
            Some (Finite false 8034492103973143 (-46));
            Some (Finite true 4505851427184181 (-52)); Some (Finite false 123 0);
            None; None; Some (Inf false); Some (Finite false 11 1); None; None].
Proof. vm_compute. reflexivity. Qed.

(** A coordinate is rounded to 53 bits, and is infinite or zero beyond
    the range of the format; white space that only [strip] knows is cut
    off by the second attempt. *)
Example coordinates_are_rounded :
  to_float_or_none Sample.decimal <$>
    (Str ∘ utf8 <$> ["9007199254740993"; "1e400"; "-1e-400"; "0.1"; "4.9e-324";
                     "22.28"]%string)
  = Ok <$> [Some (Finite false 1 53); Some (Inf false); Some (Finite true 0 0);
            Some (Finite false 3602879701896397 (-55));
            Some (Finite false 1 (-1074));
            Some (Finite false 783907810139177 (-45))]
  ∧ to_float_or_none Sample.decimal
      (Str (utf8 "1" ++ mjoin (replicate 103 (utf8 ",000"))))
    = Ok (Some (Inf false))
  ∧ float_of_str Sample.decimal [0x1C; 0x31] = Raise ValueError
  ∧ to_float_or_none Sample.decimal (Str [0x1C; 0x31]) = Ok (Some (Finite false 1 0)).
Proof. split_and!; vm_compute; reflexivity. Qed.

(** Scenario E. *)
Example scenario_e_missing_columns :
  ∃ out, select_rows Sample.isalnum Sample.decimal Sample.names_only 1 = Ok [out]
         ∧ Address_TC out = Str [] ∧ Latitude out = None.
Proof. eexists. split_and!; vm_compute; reflexivity. Qed.

(** The whole sample table at the default threshold. *)
Example sample_run :
  main Sample.isalnum Sample.decimal Sample.read_csv Sample.json_dump
    Sample.realpath Sample.write_error (Sample.args 1) Sample.fs
  = Ok (<["vegetarian_restaurants_selected.json"%string :=
            "Green Vegetarian Restaurant; Green Vegetarian Restaurant; ; ; Vegan House"%string]>
          Sample.fs,
        Report 6 5 "vegetarian_restaurants_selected.json").
Proof. vm_compute. reflexivity. Qed.

(** An output in a directory that is not there: the rows are read and
    selected, and the run ends with the exception of [open]. *)
Example sample_run_without_directory :
  main Sample.isalnum Sample.decimal Sample.read_csv Sample.json_dump
    Sample.realpath Sample.write_error
    {| input := "FEHD_RL_converted.csv"; output := "missing/out.json";
       min_matches := 1 |}
    Sample.fs
  = Raise FileNotFoundError.
Proof. vm_compute. reflexivity. Qed.

(** An output path that is another spelling of the input path: the run
    writes over its input, and a second run no longer finds a table
    there. *)
Example sample_run_over_its_input :
  ∃ fs',
    filter_and_select Sample.isalnum Sample.decimal Sample.read_csv
      Sample.json_dump Sample.realpath Sample.write_error
      Sample.fs "FEHD_RL_converted.csv" "./FEHD_RL_converted.csv" 1
    = Ok (fs', (6, 5, "./FEHD_RL_converted.csv"%string))%nat
    ∧ fs' !! "FEHD_RL_converted.csv"%string ≠ Sample.fs !! "FEHD_RL_converted.csv"%string
    ∧ filter_and_select Sample.isalnum Sample.decimal Sample.read_csv
        Sample.json_dump Sample.realpath Sample.write_error
        fs' "FEHD_RL_converted.csv" "./FEHD_RL_converted.csv" 1
      = Raise ParserError.
Proof.
  eexists. split_and!; [vm_compute; reflexivity| |vm_compute; reflexivity].
  vm_compute. discriminate.
Qed.
